(** * The data-access module of the shop server (express_server/queries.ts)

    The module is a flat set of asynchronous functions.  Each one sends
    parameterised SQL statements through the shared [sequelize] handle; the
    seven writers bracket one mutating statement between [BEGIN] and
    [COMMIT] inside a [try], and send [ROLLBACK] from the [catch].

    The development has three layers:
    - the relational engine the statements run against (values, rows,
      tables, a small SQL syntax with its evaluation, transactions);
    - the [Async] monad of the functions: the world threaded through the
      calls, rejection of a promise, [try]/[catch], the console;
    - the nineteen functions of the module, written after the source, and
      the properties proved of them. *)

From Stdlib Require Import ZArith Ascii String List Bool Lia.
From stdpp Require Import base option list gmap strings pretty.

Open Scope string_scope.
Open Scope list_scope.
Open Scope Z_scope.

(** * The relational engine

    The database behind [sequelize] is the environment of the module.  This
    part is the model of it the functions are run against: values with
    SQL's NULL, rows as finite maps from column names, the five tables and
    four views the module names, the statements it sends with their
    evaluation, and transaction blocks on the one shared connection. *)

(** ** Values *)

(** What a column holds and what a placeholder is bound to.  A JavaScript
    [number] is taken to be an integer; identifiers (userid, shopid, ...)
    are kept in their text form, the form in which the module receives
    them ([shopid: string]).  Comparison is equality of values: the
    engine's coercion of a literal to the column's type is not part of the
    model. *)
Inductive Value : Type :=
| VNull
| VBool (b : bool)
| VInt (z : Z)
| VStr (s : string)
| VDate (day : Z)
| VTime (t : Z).

#[global] Instance Value_eq_dec : EqDecision Value.
Proof. solve_decision. Defined.

Abbreviation Row := (gmap string Value).

(** ** Text functions of the engine *)

(** LOWER on one character: the twenty-six letters A-Z, nothing else. *)
Definition is_upper (a : ascii) : bool :=
  let n := nat_of_ascii a in ((65 <=? n) && (n <=? 90))%nat.

Definition lower_ascii (a : ascii) : ascii :=
  if is_upper a then ascii_of_nat (nat_of_ascii a + 32) else a.

Definition lower (s : list ascii) : list ascii := map lower_ascii s.

Definition chars (s : string) : list ascii := list_ascii_of_string s.

Definition LOWER_string (s : string) : string :=
  string_of_list_ascii (lower (chars s)).

(** [like p s]: the text [s] matches the LIKE pattern [p].  In a pattern
    [%] stands for any run of characters, [_] for any one character, and a
    backslash makes the next character literal; a pattern ending in a lone
    backslash matches nothing. *)
Fixpoint like (p s : list ascii) : bool :=
  match p with
  | [] => match s with [] => true | _ :: _ => false end
  | c :: p' =>
      if Ascii.eqb c "%" then
        (fix any (t : list ascii) : bool :=
           like p' t || match t with [] => false | _ :: t' => any t' end) s
      else if Ascii.eqb c "_" then
        match s with [] => false | _ :: s' => like p' s' end
      else if Ascii.eqb c "\" then
        match p', s with
        | d :: p'', x :: s' => Ascii.eqb d x && like p'' s'
        | _, _ => false
        end
      else
        match s with [] => false | x :: s' => Ascii.eqb c x && like p' s' end
  end.

(** [prefixb p s]: [s] starts with [p]; [infixb p s]: [p] occurs in [s]. *)
Fixpoint prefixb (p s : list ascii) : bool :=
  match p, s with
  | [], _ => true
  | _ :: _, [] => false
  | c :: p', x :: s' => Ascii.eqb c x && prefixb p' s'
  end.

Fixpoint infixb (p s : list ascii) : bool :=
  prefixb p s || match s with [] => false | _ :: s' => infixb p s' end.

(** A character with no special meaning in a LIKE pattern. *)
Definition plain (c : ascii) : bool :=
  negb (Ascii.eqb c "%" || Ascii.eqb c "_" || Ascii.eqb c "\").

(** ** Tables and views *)

Inductive Table : Type := Users | Shops | Sellers | Products | Orders.

Inductive View : Type :=
  UserInfoView | ShopInfoView | ProductInfoView | OrdersInfoView.

Inductive Relation : Type := RTable (t : Table) | RView (v : View).

Record Tables : Type := mkTables {
  users : list Row;
  shops : list Row;
  sellers : list Row;
  products : list Row;
  orders : list Row
}.

Definition rows_of (t : Table) (d : Tables) : list Row :=
  match t with
  | Users => users d
  | Shops => shops d
  | Sellers => sellers d
  | Products => products d
  | Orders => orders d
  end.

Definition set_rows (t : Table) (rs : list Row) (d : Tables) : Tables :=
  match t with
  | Users => mkTables rs (shops d) (sellers d) (products d) (orders d)
  | Shops => mkTables (users d) rs (sellers d) (products d) (orders d)
  | Sellers => mkTables (users d) (shops d) rs (products d) (orders d)
  | Products => mkTables (users d) (shops d) (sellers d) rs (orders d)
  | Orders => mkTables (users d) (shops d) (sellers d) (products d) rs
  end.

(** Unquoted identifiers are folded to lower case by the engine: the
    source writes [Users] and [users], [Email] and [email]. *)
Definition fold_ident (name : string) : string := LOWER_string name.

Definition table_named (name : string) : option Table :=
  let n := fold_ident name in
  if String.eqb n "users" then Some Users
  else if String.eqb n "shops" then Some Shops
  else if String.eqb n "sellers" then Some Sellers
  else if String.eqb n "products" then Some Products
  else if String.eqb n "orders" then Some Orders
  else None.

Definition view_named (name : string) : option View :=
  let n := fold_ident name in
  if String.eqb n "userinfoview" then Some UserInfoView
  else if String.eqb n "shopinfoview" then Some ShopInfoView
  else if String.eqb n "productinfoview" then Some ProductInfoView
  else if String.eqb n "ordersinfoview" then Some OrdersInfoView
  else None.

Definition relation_named (name : string) : option Relation :=
  match table_named name with
  | Some t => Some (RTable t)
  | None => RView <$> view_named name
  end.

(** Modelled from the spec: the schema file is not among the sources.  The
    column a table fills by itself on insertion (its serial key), after the
    spec's data model: every entity but Seller has an [id] of its own. *)
Definition serial_column (t : Table) : option string :=
  match t with
  | Users => Some "userid"
  | Shops => Some "shopid"
  | Sellers => None
  | Products => Some "productid"
  | Orders => Some "orderid"
  end.

(** Renaming of one column of a row. *)
Definition rename_column (from to : string) (r : Row) : Row :=
  match r !! from with
  | Some v => <[to := v]> (delete from r)
  | None => r
  end.

(** Modelled from the spec: the view definitions are not among the sources.
    A view is "a read-only, precomputed relational query exposed as if it
    were a table"; each is taken to expose the rows of its table, and
    [ShopInfoView] to expose the shop's [owner] under the name the module
    filters on, [ownerid]. *)
Definition view_rows (v : View) (d : Tables) : list Row :=
  match v with
  | UserInfoView => users d
  | ShopInfoView => map (rename_column "owner" "ownerid") (shops d)
  | ProductInfoView => products d
  | OrdersInfoView => orders d
  end.

Definition relation_rows (r : Relation) (d : Tables) : list Row :=
  match r with
  | RTable t => rows_of t d
  | RView v => view_rows v d
  end.


(** ** Statements *)

(** The expressions and statements the module sends.  [Placeholder i] is
    the [i]-th [?] of the statement text, counted from 0 in reading order:
    [sequelize] replaces it by the [i]-th element of [replacements]. *)
Inductive Expr : Type :=
| Placeholder (i : nat)
| Column (name : string)
| CURRENT_DATE
| CURRENT_TIMESTAMP
| LOWER (e : Expr)
| EQ (a b : Expr)
| LIKE (a b : Expr)
| AND (a b : Expr).

Inductive Sql : Type :=
| BEGIN
| COMMIT
| ROLLBACK
| LOCK_TABLE (table : string)
| INSERT_INTO (table : string) (columns : list string) (values : list Expr)
| UPDATE (table : string) (assignments : list (string * Expr)) (cond : Expr)
| SELECT_FROM (relation : string) (cond : option Expr)
| SELECT_EXISTS (relation : string) (cond : Expr) (alias : string).

#[global] Instance Expr_eq_dec : EqDecision Expr.
Proof. solve_decision. Defined.

#[global] Instance Sql_eq_dec : EqDecision Sql.
Proof. solve_decision. Defined.

Record Clock : Type := mkClock { today : Z; now : Z }.

(** Comparison and conjunction follow SQL's three-valued logic: a NULL
    operand makes a comparison unknown (NULL), and a row is selected only
    where the condition is true. *)
Definition sql_eq (a b : Value) : Value :=
  match a, b with
  | VNull, _ | _, VNull => VNull
  | _, _ => VBool (bool_decide (a = b))
  end.

Definition sql_and (a b : Value) : Value :=
  match a, b with
  | VBool false, _ | _, VBool false => VBool false
  | VBool true, VBool true => VBool true
  | _, _ => VNull
  end.

Definition holds (v : Value) : bool :=
  match v with VBool true => true | _ => false end.

Fixpoint eval (clk : Clock) (repl : list Value) (r : Row) (e : Expr) : Value :=
  match e with
  | Placeholder i => default VNull (repl !! i)
  | Column c => default VNull (r !! fold_ident c)
  | CURRENT_DATE => VDate (today clk)
  | CURRENT_TIMESTAMP => VTime (now clk)
  | LOWER a =>
      match eval clk repl r a with
      | VStr s => VStr (LOWER_string s)
      | _ => VNull
      end
  | EQ a b => sql_eq (eval clk repl r a) (eval clk repl r b)
  | LIKE a b =>
      match eval clk repl r a, eval clk repl r b with
      | VStr s, VStr p => VBool (like (chars p) (chars s))
      | _, _ => VNull
      end
  | AND a b => sql_and (eval clk repl r a) (eval clk repl r b)
  end.

(** Every [?] of the statement has a replacement. *)
Fixpoint expr_bound (n : nat) (e : Expr) : bool :=
  match e with
  | Placeholder i => (i <? n)%nat
  | Column _ | CURRENT_DATE | CURRENT_TIMESTAMP => true
  | LOWER a => expr_bound n a
  | EQ a b | LIKE a b | AND a b => expr_bound n a && expr_bound n b
  end.

Definition sql_bound (n : nat) (q : Sql) : bool :=
  match q with
  | BEGIN | COMMIT | ROLLBACK | LOCK_TABLE _ => true
  | INSERT_INTO _ _ vals => forallb (expr_bound n) vals
  | UPDATE _ sets c => forallb (fun ce => expr_bound n ce.2) sets && expr_bound n c
  | SELECT_FROM _ c => from_option (expr_bound n) true c
  | SELECT_EXISTS _ c _ => expr_bound n c
  end.

(** ** Integrity constraints *)

Inductive DbError : Type :=
| ConnectionError
| SyntaxError
| UndefinedRelation (name : string)
| UniqueViolation (column : string)
| ForeignKeyViolation (column : string)
| NoActiveTransaction
| InFailedTransaction.

Definition has_value (c : string) (v : Value) (r : Row) : bool :=
  bool_decide (r !! c = Some v).

(** No row of [rs] holds [v] in column [c]; NULL clashes with nothing. *)
Definition fresh_in (c : string) (v : option Value) (rs : list Row) : bool :=
  match v with
  | None | Some VNull => true
  | Some x => negb (existsb (has_value c x) rs)
  end.

(** Some row of [rs] holds [v] in column [c]; NULL refers to nothing and
    is not checked. *)
Definition refers_to (c : string) (v : option Value) (rs : list Row) : bool :=
  match v with
  | None | Some VNull => true
  | Some x => existsb (has_value c x) rs
  end.

(** Modelled from the spec: the schema file is not among the sources.  The
    constraints are those the spec lists as enforced: "emails unique" and
    "order references must point to existing shop/product/user (enforced
    by foreign keys external to this module)".  [insert_violation] is the
    check on a row about to be appended to table [t]. *)
Definition insert_violation (t : Table) (d : Tables) (r : Row) : option DbError :=
  match t with
  | Users =>
      if fresh_in "email" (r !! "email") (users d) then None
      else Some (UniqueViolation "email")
  | Orders =>
      if negb (refers_to "userid" (r !! "buyer") (users d))
      then Some (ForeignKeyViolation "buyer")
      else if negb (refers_to "shopid" (r !! "shop") (shops d))
      then Some (ForeignKeyViolation "shop")
      else if negb (refers_to "productid" (r !! "product") (products d))
      then Some (ForeignKeyViolation "product")
      else None
  | Shops | Sellers | Products => None
  end.

(** Modelled from the spec: the check on an update of table [t] from rows
    [old] to rows [new] (same positions).  A user row whose email the
    statement changed must not share the new email with another row. *)
Definition update_violation (t : Table) (old new : list Row) : option DbError :=
  match t with
  | Users =>
      if forallb
           (fun on : Row * Row =>
              bool_decide (on.1 !! "email" = on.2 !! "email")
              || match on.2 !! "email" with
                 | None | Some VNull => true
                 | Some x => (length (List.filter (has_value "email" x) new) <=? 1)%nat
                 end)
           (zip old new)
      then None else Some (UniqueViolation "email")
  | Shops | Sellers | Products | Orders => None
  end.

(** ** Execution of one statement on the tables *)

Definition selected (clk : Clock) (repl : list Value) (c : Expr) (r : Row) : bool :=
  holds (eval clk repl r c).

(** The assignments of an UPDATE: every right-hand side is evaluated on
    the row as it was before the statement. *)
Definition assign (clk : Clock) (repl : list Value)
    (sets : list (string * Expr)) (r : Row) : Row :=
  foldr (fun ce acc => <[fold_ident ce.1 := eval clk repl r ce.2]> acc) r sets.

Definition update_row (clk : Clock) (repl : list Value)
    (sets : list (string * Expr)) (c : Expr) (r : Row) : Row :=
  if selected clk repl c r then assign clk repl sets r else r.

(** The row an INSERT builds: the listed columns from the listed values,
    and the table's serial key, drawn from the sequence, when the
    statement does not give it. *)
Definition new_row (clk : Clock) (repl : list Value) (seq : Z) (t : Table)
    (cols : list string) (vals : list Expr) : Row :=
  let given : Row :=
    list_to_map (zip (fold_ident <$> cols) (eval clk repl ∅ <$> vals)) in
  match serial_column t with
  | Some k =>
      match given !! k with
      | Some _ => given
      | None => <[k := VStr (pretty seq)]> given
      end
  | None => given
  end.

(** Result of a data statement: the rows it returns and the number of rows
    it affected, with the tables after it.  The statements of transaction
    control touch no table. *)
Definition run_statement (clk : Clock) (seq : Z) (q : Sql) (repl : list Value)
    (d : Tables) : DbError + (list Row * Z * Tables) :=
  if negb (sql_bound (length repl) q) then inl SyntaxError else
  match q with
  | BEGIN | COMMIT | ROLLBACK | LOCK_TABLE _ => inr ([], 0, d)
  | INSERT_INTO t cols vals =>
      match table_named t with
      | None => inl (UndefinedRelation t)
      | Some tb =>
          if negb (length cols =? length vals)%nat then inl SyntaxError else
          let r := new_row clk repl seq tb cols vals in
          match insert_violation tb d r with
          | Some e => inl e
          | None => inr ([], 1, set_rows tb (rows_of tb d ++ [r]) d)
          end
      end
  | UPDATE t sets c =>
      match table_named t with
      | None => inl (UndefinedRelation t)
      | Some tb =>
          let old := rows_of tb d in
          let new := update_row clk repl sets c <$> old in
          match update_violation tb old new with
          | Some e => inl e
          | None =>
              inr ([], Z.of_nat (length (List.filter (selected clk repl c) old)),
                   set_rows tb new d)
          end
      end
  | SELECT_FROM rel c =>
      match relation_named rel with
      | None => inl (UndefinedRelation rel)
      | Some R =>
          let rs :=
            List.filter (fun r => from_option (fun c => selected clk repl c r) true c)
              (relation_rows R d) in
          inr (rs, Z.of_nat (length rs), d)
      end
  | SELECT_EXISTS rel c alias =>
      match relation_named rel with
      | None => inl (UndefinedRelation rel)
      | Some R =>
          inr ([ {[ alias := VBool (existsb (selected clk repl c) (relation_rows R d)) ]} ],
               1, d)
      end
  end.

(** ** The session: transactions on the one shared connection *)

Inductive TxStatus : Type :=
| Idle
| InTransaction (saved : Tables)
| Failed (saved : Tables).

Record Server : Type := mkServer {
  tables : Tables;
  status : TxStatus;
  sequence : Z;
  clock : Clock
}.

Definition with_tables (d : Tables) (s : Server) : Server :=
  mkServer d (status s) (sequence s) (clock s).

Definition with_status (st : TxStatus) (s : Server) : Server :=
  mkServer (tables s) st (sequence s) (clock s).

(** A statement that raises an error inside a transaction block puts the
    block in the failed state: until the block ends the engine refuses
    every statement. *)
Definition fail_block (s : Server) : Server :=
  match status s with
  | InTransaction saved => with_status (Failed saved) s
  | Idle | Failed _ => s
  end.

(** End of a block without commit: the tables are those saved at BEGIN. *)
Definition abandon (s : Server) : Server :=
  match status s with
  | Idle => s
  | InTransaction saved | Failed saved => with_status Idle (with_tables saved s)
  end.

Definition is_insert (q : Sql) : bool :=
  match q with INSERT_INTO _ _ _ => true | _ => false end.

(** One statement received by the engine.  BEGIN inside a block and COMMIT
    or ROLLBACK outside one only draw a warning; COMMIT of a failed block
    rolls it back; LOCK TABLE is refused outside a block.  With a single
    connection a lock is always granted and changes no data.  A value is
    drawn from the sequence by every INSERT, accepted or not, and is not
    given back by a rollback. *)
Definition exec (q : Sql) (repl : list Value) (s : Server)
    : (DbError + (list Row * Z)) * Server :=
  match status s, q with
  | Failed _, (COMMIT | ROLLBACK) => (inr ([], 0), abandon s)
  | Failed _, _ => (inl InFailedTransaction, s)
  | Idle, BEGIN => (inr ([], 0), with_status (InTransaction (tables s)) s)
  | InTransaction _, BEGIN => (inr ([], 0), s)
  | _, COMMIT => (inr ([], 0), with_status Idle s)
  | _, ROLLBACK => (inr ([], 0), abandon s)
  | Idle, LOCK_TABLE _ => (inl NoActiveTransaction, s)
  | InTransaction _, LOCK_TABLE t =>
      match table_named t with
      | Some _ => (inr ([], 0), s)
      | None => (inl (UndefinedRelation t), fail_block s)
      end
  | _, _ =>
      let s1 := if is_insert q
                then mkServer (tables s) (status s) (sequence s + 1) (clock s)
                else s in
      match run_statement (clock s) (sequence s) q repl (tables s) with
      | inl e => (inl e, fail_block s1)
      | inr (rs, n, d) => (inr (rs, n), with_tables d s1)
      end
  end.

(** * The module *)

(** ** The world of the functions and the [Async] monad *)

Module QueryTypes.
Inductive t : Type := RAW | SELECT | INSERT | UPDATE.
End QueryTypes.

(** A value a function of the module hands to its caller. *)
Inductive JsValue : Type :=
| undefined
| JsArray (rs : list Row)
| JsNumber (n : Z)
| JsColumn (v : Value).

Inductive Exception : Type :=
| DatabaseError (e : DbError)
| TypeError.

(** One round trip as it went over the connection. *)
Record Sent : Type := mkSent {
  sent_sql : Sql;
  sent_replacements : list Value;
  sent_type : QueryTypes.t;
  sent_error : option DbError
}.

Inductive ConsoleLine : Type :=
| LogLine (args : list JsValue)
| ErrorLine (message : string) (error : Exception).

(** The world a call runs in: the database session, the round trips the
    environment is going to reject ([true] = the connection breaks on that
    round trip; past the end of the list none does), the statements sent so
    far and the console. *)
Record World : Type := mkWorld {
  server : Server;
  faults : list bool;
  wire : list Sent;
  console : list ConsoleLine
}.

Inductive Outcome (A : Type) : Type :=
| Resolved (a : A)
| Rejected (e : Exception).
Arguments Resolved {A} a.
Arguments Rejected {A} e.

Definition Async (A : Type) : Type := World → Outcome A * World.

#[global] Instance Async_ret : MRet Async :=
  λ A a w, (Resolved a, w).

#[global] Instance Async_bind : MBind Async :=
  λ A B f m w,
    match m w with
    | (Resolved a, w') => f a w'
    | (Rejected e, w') => (Rejected e, w')
    end.

#[global] Instance Async_fmap : FMap Async :=
  λ A B f m, a ← m; mret (f a).

Definition throw {A} (e : Exception) : Async A := λ w, (Rejected e, w).

(** [try { body } catch (error) { handler }] *)
Definition try_catch {A} (body : Async A) (handler : Exception → Async A) : Async A :=
  λ w,
    match body w with
    | (Resolved a, w') => (Resolved a, w')
    | (Rejected e, w') => handler e w'
    end.

Definition console_log (args : list JsValue) : Async unit :=
  λ w, (Resolved (), mkWorld (server w) (faults w) (wire w) (console w ++ [LogLine args])).

Definition console_error (message : string) (error : Exception) : Async unit :=
  λ w, (Resolved (),
        mkWorld (server w) (faults w) (wire w) (console w ++ [ErrorLine message error])).

Definition next_fault (fs : list bool) : bool := default false (head fs).

(** [await sequelize.query(q, { replacements, type })].  A round trip the
    environment rejects never reaches the engine, and the broken session
    takes its open transaction with it; otherwise the engine executes the
    statement and the promise is rejected with the engine's error, if any.
    The value is the pair [results, metadata]; a SELECT query resolves to
    its first component, the rows. *)
Definition sequelize_query (q : Sql) (replacements : list Value) (type : QueryTypes.t)
    : Async (list Row * Z) :=
  λ w,
    let sent e := wire w ++ [mkSent q replacements type e] in
    if next_fault (faults w) then
      (Rejected (DatabaseError ConnectionError),
       mkWorld (abandon (server w)) (tail (faults w)) (sent (Some ConnectionError)) (console w))
    else
      match exec q replacements (server w) with
      | (inl e, s) =>
          (Rejected (DatabaseError e),
           mkWorld s (tail (faults w)) (sent (Some e)) (console w))
      | (inr res, s) =>
          (Resolved res, mkWorld s (tail (faults w)) (sent None) (console w))
      end.

(** ** The records of types.ts *)

(** types.ts is not among the sources.  Each interface below has the fields
    the functions of queries.ts read from it; identifiers, names, dates and
    passwords are strings, prices and quantities numbers. *)

Module ISignUpInfo.
(** Modelled from the spec: the fields createUser binds, "email, first/last
    name, date of birth, password". *)
Record t : Type := mk {
  email : string; firstname : string; lastname : string;
  dob : string; password : string
}.
End ISignUpInfo.

Module ICreateShopInfo.
(** Modelled from the spec: the fields createShop binds; the establish date
    is "server-assigned" and is not among them. *)
Record t : Type := mk { shopname : string; description : string; ownerid : string }.
End ICreateShopInfo.

Module ICreateProductInfo.
(** Modelled from the spec: the fields createProduct binds. *)
Record t : Type := mk {
  shopid : string; price : Z; name : string; quantity : Z; description : string
}.
End ICreateProductInfo.

Module ICreateOrderInfo.
(** Modelled from the spec: the fields createOrder binds; the order time is
    "server-assigned". *)
Record t : Type := mk {
  userid : string; shopid : string; productid : string; quantity : Z
}.
End ICreateOrderInfo.

Module IUserInfoView.
(** Modelled from the spec: the fields updateUserData binds, those of a
    user record. *)
Record t : Type := mk {
  userid : string; firstname : string; lastname : string;
  email : string; dob : string; password : string
}.
End IUserInfoView.

(** ** The functions of queries.ts *)

Notation "? i" := (Placeholder i) (at level 1, i at level 0, format "? i").

(** SELECT * FROM ShopInfoView *)
Definition getAllShopsInfo : Async (list Row) :=
  let query := SELECT_FROM "ShopInfoView" None in
  results ← fst <$> sequelize_query query [] QueryTypes.SELECT;
  console_log [JsArray results];;
  mret results.

(** SELECT * FROM ProductInfoView WHERE shopid = ? *)
Definition getAllProductsOfAShop (ShopID : string) : Async (list Row) :=
  let query := SELECT_FROM "ProductInfoView" (Some (EQ (Column "shopid") ?0)) in
  results ← fst <$> sequelize_query query [VStr ShopID] QueryTypes.SELECT;
  console_log [JsArray results];;
  mret results.

(** SELECT * FROM ShopInfoView WHERE shopid = ?; *)
Definition getShopInfo (ShopID : string) : Async (list Row) :=
  let query := SELECT_FROM "ShopInfoView" (Some (EQ (Column "shopid") ?0)) in
  results ← fst <$> sequelize_query query [VStr ShopID] QueryTypes.SELECT;
  console_log [JsArray results];;
  mret results.

(** SELECT EXISTS (SELECT * FROM users WHERE email = ?) AS "user_exists";
    [results[0].user_exists]: reading a property of a missing first row is a
    TypeError, a missing property is [undefined]. *)
Definition checkIfUserExists (email : string) : Async JsValue :=
  let query := SELECT_EXISTS "users" (EQ (Column "email") ?0) "user_exists" in
  results ← fst <$> sequelize_query query [VStr email] QueryTypes.SELECT;
  match results with
  | [] => throw TypeError
  | r :: _ =>
      let user_exists := from_option JsColumn undefined (r !! "user_exists") in
      console_log [user_exists];;
      mret user_exists
  end.

(** INSERT INTO Users (Email, FirstName, LastName, DOB, Password)
    VALUES (?, ?, ?, ?, ?) *)
Definition createUser (userInfo : ISignUpInfo.t) : Async JsValue :=
  try_catch
    (sequelize_query BEGIN [] QueryTypes.RAW;;
     let query :=
       INSERT_INTO "Users" ["Email"; "FirstName"; "LastName"; "DOB"; "Password"]
         [?0; ?1; ?2; ?3; ?4] in
     '(results, metadata) ← sequelize_query query
         [VStr (ISignUpInfo.email userInfo);
          VStr (ISignUpInfo.firstname userInfo);
          VStr (ISignUpInfo.lastname userInfo);
          VStr (ISignUpInfo.dob userInfo);
          VStr (ISignUpInfo.password userInfo)]
         QueryTypes.INSERT;
     sequelize_query COMMIT [] QueryTypes.RAW;;
     console_log [JsArray results; JsNumber metadata];;
     mret (JsNumber metadata))
    (λ error,
       console_error "Failed to create user: " error;;
       sequelize_query ROLLBACK [] QueryTypes.RAW;;
       mret undefined).

(** SELECT * FROM UserInfoView WHERE email = ?; *)
Definition getUserInfoByEmail (email : string) : Async (list Row) :=
  let query := SELECT_FROM "UserInfoView" (Some (EQ (Column "email") ?0)) in
  results ← fst <$> sequelize_query query [VStr email] QueryTypes.SELECT;
  console_log [JsArray results];;
  mret results.

(** SELECT * FROM UserInfoView WHERE userid = ?; *)
Definition getUserInfoByID (userid : string) : Async (list Row) :=
  let query := SELECT_FROM "UserInfoView" (Some (EQ (Column "userid") ?0)) in
  results ← fst <$> sequelize_query query [VStr userid] QueryTypes.SELECT;
  console_log [JsArray results];;
  mret results.

(** SELECT * FROM UserInfoView WHERE email = ? AND password = ?; *)
Definition getUserByEmailAndPassword (email password : string) : Async (list Row) :=
  let query :=
    SELECT_FROM "UserInfoView"
      (Some (AND (EQ (Column "email") ?0) (EQ (Column "password") ?1))) in
  results ← fst <$> sequelize_query query [VStr email; VStr password] QueryTypes.SELECT;
  console_log [JsArray results];;
  mret results.

(** SELECT * FROM ShopInfoView WHERE ownerid = ?; *)
Definition getShopsOwnedByUser (userid : string) : Async (list Row) :=
  let query := SELECT_FROM "ShopInfoView" (Some (EQ (Column "ownerid") ?0)) in
  results ← fst <$> sequelize_query query [VStr userid] QueryTypes.SELECT;
  console_log [JsArray results];;
  mret results.

(** INSERT INTO Shops (ShopName, EstablishDate, Description, Owner)
    VALUES (?, CURRENT_DATE, ?, ?); *)
Definition createShop (shopInfo : ICreateShopInfo.t) : Async JsValue :=
  try_catch
    (sequelize_query BEGIN [] QueryTypes.RAW;;
     let query :=
       INSERT_INTO "Shops" ["ShopName"; "EstablishDate"; "Description"; "Owner"]
         [?0; CURRENT_DATE; ?1; ?2] in
     '(results, metadata) ← sequelize_query query
         [VStr (ICreateShopInfo.shopname shopInfo);
          VStr (ICreateShopInfo.description shopInfo);
          VStr (ICreateShopInfo.ownerid shopInfo)]
         QueryTypes.INSERT;
     sequelize_query COMMIT [] QueryTypes.RAW;;
     console_log [JsArray results];;
     mret (JsArray results))
    (λ error,
       console_error "Failed to create shop: " error;;
       sequelize_query ROLLBACK [] QueryTypes.RAW;;
       mret undefined).

(** INSERT INTO Sellers (sellerid) VALUES (?); *)
Definition makeSeller (userID : string) : Async JsValue :=
  try_catch
    (sequelize_query BEGIN [] QueryTypes.RAW;;
     let query := INSERT_INTO "Sellers" ["sellerid"] [?0] in
     '(results, metadata) ← sequelize_query query [VStr userID] QueryTypes.INSERT;
     sequelize_query COMMIT [] QueryTypes.RAW;;
     console_log [JsArray results];;
     mret (JsArray results))
    (λ error,
       console_error "Failed to add user as a seller: " error;;
       sequelize_query ROLLBACK [] QueryTypes.RAW;;
       mret undefined).

(** INSERT INTO Products (shopid, price, name, quantity, description)
    VALUES (?, ?, ?, ?, ?); *)
Definition createProduct (productInfo : ICreateProductInfo.t) : Async JsValue :=
  try_catch
    (sequelize_query BEGIN [] QueryTypes.RAW;;
     let query :=
       INSERT_INTO "Products" ["shopid"; "price"; "name"; "quantity"; "description"]
         [?0; ?1; ?2; ?3; ?4] in
     '(results, metadata) ← sequelize_query query
         [VStr (ICreateProductInfo.shopid productInfo);
          VInt (ICreateProductInfo.price productInfo);
          VStr (ICreateProductInfo.name productInfo);
          VInt (ICreateProductInfo.quantity productInfo);
          VStr (ICreateProductInfo.description productInfo)]
         QueryTypes.INSERT;
     sequelize_query COMMIT [] QueryTypes.RAW;;
     console_log [JsArray results];;
     mret (JsArray results))
    (λ error,
       console_error "Failed to create product: " error;;
       sequelize_query ROLLBACK [] QueryTypes.RAW;;
       mret undefined).

(** SELECT * FROM OrdersInfoView WHERE buyer = ? *)
Definition getUsersOrders (userid : string) : Async (list Row) :=
  let query := SELECT_FROM "OrdersInfoView" (Some (EQ (Column "buyer") ?0)) in
  results ← fst <$> sequelize_query query [VStr userid] QueryTypes.SELECT;
  console_log [JsArray results];;
  mret results.

(** INSERT INTO Orders (Buyer, Shop, Product, Quantity, OrderTime) VALUES
    (?, ?, ?, ?, CURRENT_TIMESTAMP) *)
Definition createOrder (createOrderInfo : ICreateOrderInfo.t) : Async JsValue :=
  try_catch
    (sequelize_query BEGIN [] QueryTypes.RAW;;
     let query :=
       INSERT_INTO "Orders" ["Buyer"; "Shop"; "Product"; "Quantity"; "OrderTime"]
         [?0; ?1; ?2; ?3; CURRENT_TIMESTAMP] in
     '(results, metadata) ← sequelize_query query
         [VStr (ICreateOrderInfo.userid createOrderInfo);
          VStr (ICreateOrderInfo.shopid createOrderInfo);
          VStr (ICreateOrderInfo.productid createOrderInfo);
          VInt (ICreateOrderInfo.quantity createOrderInfo)]
         QueryTypes.INSERT;
     sequelize_query COMMIT [] QueryTypes.RAW;;
     console_log [JsArray results];;
     mret (JsArray results))
    (λ error,
       console_error "Failed to create new order: " error;;
       sequelize_query ROLLBACK [] QueryTypes.RAW;;
       mret undefined).

(** LOCK TABLE Products IN ACCESS EXCLUSIVE MODE;
    UPDATE Products SET quantity = ? WHERE shopid = ? AND productid = ?; *)
Definition setProductQuantity (shopid productid : string) (newQuantity : Z)
    : Async JsValue :=
  try_catch
    (sequelize_query BEGIN [] QueryTypes.RAW;;
     sequelize_query (LOCK_TABLE "Products") [] QueryTypes.RAW;;
     let query :=
       UPDATE "Products" [("quantity", ?0)]
         (AND (EQ (Column "shopid") ?1) (EQ (Column "productid") ?2)) in
     '(results, metadata) ← sequelize_query query
         [VInt newQuantity; VStr shopid; VStr productid] QueryTypes.UPDATE;
     sequelize_query COMMIT [] QueryTypes.RAW;;
     console_log [JsArray results];;
     mret (JsArray results))
    (λ error,
       console_error "Failed to update product quantity: " error;;
       sequelize_query ROLLBACK [] QueryTypes.RAW;;
       mret undefined).

(** SELECT * FROM Products WHERE shopid = ? AND productid = ?; *)
Definition getProduct (shopid productid : string) : Async (list Row) :=
  let query :=
    SELECT_FROM "Products"
      (Some (AND (EQ (Column "shopid") ?0) (EQ (Column "productid") ?1))) in
  results ← fst <$> sequelize_query query [VStr shopid; VStr productid] QueryTypes.SELECT;
  console_log [JsArray results];;
  mret results.

(** The template literal [`%${searchStr}%`]. *)
Definition like_pattern (searchStr : string) : string := "%" +:+ searchStr +:+ "%".

(** SELECT * FROM ProductInfoView WHERE shopid = ? AND LOWER(name) LIKE ? *)
Definition getProductsOfShopLike (shopid searchStr : string) : Async (list Row) :=
  let query :=
    SELECT_FROM "ProductInfoView"
      (Some (AND (EQ (Column "shopid") ?0) (LIKE (LOWER (Column "name")) ?1))) in
  results ← fst <$> sequelize_query query
      [VStr shopid; VStr (like_pattern searchStr)] QueryTypes.SELECT;
  console_log [JsArray results];;
  mret results.

(** SELECT * FROM ShopInfoView WHERE LOWER(shopname) LIKE ?; *)
Definition getShopsLike (searchStr : string) : Async (list Row) :=
  let query :=
    SELECT_FROM "ShopInfoView" (Some (LIKE (LOWER (Column "shopname")) ?0)) in
  results ← fst <$> sequelize_query query [VStr (like_pattern searchStr)] QueryTypes.SELECT;
  console_log [JsArray results];;
  mret results.

(** LOCK TABLE Users IN ACCESS EXCLUSIVE MODE;
    UPDATE Users SET (userid, firstname, lastname, email, dob, password)
    = (?, ?, ?, ?, ?, ?) WHERE userid = ?; *)
Definition updateUserData (newUserInfo : IUserInfoView.t) : Async JsValue :=
  try_catch
    (sequelize_query BEGIN [] QueryTypes.RAW;;
     sequelize_query (LOCK_TABLE "Users") [] QueryTypes.RAW;;
     let query :=
       UPDATE "Users"
         [("userid", ?0); ("firstname", ?1); ("lastname", ?2);
          ("email", ?3); ("dob", ?4); ("password", ?5)]
         (EQ (Column "userid") ?6) in
     '(results, metadata) ← sequelize_query query
         [VStr (IUserInfoView.userid newUserInfo);
          VStr (IUserInfoView.firstname newUserInfo);
          VStr (IUserInfoView.lastname newUserInfo);
          VStr (IUserInfoView.email newUserInfo);
          VStr (IUserInfoView.dob newUserInfo);
          VStr (IUserInfoView.password newUserInfo);
          VStr (IUserInfoView.userid newUserInfo)]
         QueryTypes.UPDATE;
     sequelize_query COMMIT [] QueryTypes.RAW;;
     console_log [JsArray results];;
     mret (JsArray results))
    (λ error,
       console_error "Failed to update user info:" error;;
       sequelize_query ROLLBACK [] QueryTypes.RAW;;
       mret undefined).

(** ** The operations of the module, as data *)

Inductive WriteOp : Type :=
| CreateUser (userInfo : ISignUpInfo.t)
| CreateShop (shopInfo : ICreateShopInfo.t)
| MakeSeller (userID : string)
| CreateProduct (productInfo : ICreateProductInfo.t)
| CreateOrder (createOrderInfo : ICreateOrderInfo.t)
| SetProductQuantity (shopid productid : string) (newQuantity : Z)
| UpdateUserData (newUserInfo : IUserInfoView.t).

Inductive ReadOp : Type :=
| GetAllShopsInfo
| GetAllProductsOfAShop (ShopID : string)
| GetShopInfo (ShopID : string)
| CheckIfUserExists (email : string)
| GetUserInfoByEmail (email : string)
| GetUserInfoByID (userid : string)
| GetUserByEmailAndPassword (email password : string)
| GetShopsOwnedByUser (userid : string)
| GetUsersOrders (userid : string)
| GetProduct (shopid productid : string)
| GetProductsOfShopLike (shopid searchStr : string)
| GetShopsLike (searchStr : string).

Inductive Operation : Type :=
| Writing (op : WriteOp)
| Reading (op : ReadOp).

Definition run_write (op : WriteOp) : Async JsValue :=
  match op with
  | CreateUser userInfo => createUser userInfo
  | CreateShop shopInfo => createShop shopInfo
  | MakeSeller userID => makeSeller userID
  | CreateProduct productInfo => createProduct productInfo
  | CreateOrder createOrderInfo => createOrder createOrderInfo
  | SetProductQuantity shopid productid newQuantity =>
      setProductQuantity shopid productid newQuantity
  | UpdateUserData newUserInfo => updateUserData newUserInfo
  end.

Definition run_read (op : ReadOp) : Async JsValue :=
  match op with
  | GetAllShopsInfo => JsArray <$> getAllShopsInfo
  | GetAllProductsOfAShop ShopID => JsArray <$> getAllProductsOfAShop ShopID
  | GetShopInfo ShopID => JsArray <$> getShopInfo ShopID
  | CheckIfUserExists email => checkIfUserExists email
  | GetUserInfoByEmail email => JsArray <$> getUserInfoByEmail email
  | GetUserInfoByID userid => JsArray <$> getUserInfoByID userid
  | GetUserByEmailAndPassword email password =>
      JsArray <$> getUserByEmailAndPassword email password
  | GetShopsOwnedByUser userid => JsArray <$> getShopsOwnedByUser userid
  | GetUsersOrders userid => JsArray <$> getUsersOrders userid
  | GetProduct shopid productid => JsArray <$> getProduct shopid productid
  | GetProductsOfShopLike shopid searchStr =>
      JsArray <$> getProductsOfShopLike shopid searchStr
  | GetShopsLike searchStr => JsArray <$> getShopsLike searchStr
  end.

Definition run (op : Operation) : Async JsValue :=
  match op with
  | Writing op => run_write op
  | Reading op => run_read op
  end.

(** *** The common shape of the seven writers

    The writers are seven copies of one text.  [Shape] collects what
    differs between the copies and [transaction] is the text;
    [run_write_transaction] below checks, by unfolding alone, that each
    writer is its instance. *)
Record Shape : Type := mkShape {
  sh_lock : option string;
  sh_statement : Sql;
  sh_replacements : list Value;
  sh_type : QueryTypes.t;
  sh_message : string;
  sh_logged : list Row → Z → list JsValue;
  sh_value : list Row → Z → JsValue
}.

Definition transaction (sh : Shape) : Async JsValue :=
  let rest : Async JsValue :=
    '(results, metadata) ←
       sequelize_query (sh_statement sh) (sh_replacements sh) (sh_type sh);
    sequelize_query COMMIT [] QueryTypes.RAW;;
    console_log (sh_logged sh results metadata);;
    mret (sh_value sh results metadata) in
  try_catch
    (sequelize_query BEGIN [] QueryTypes.RAW;;
     match sh_lock sh with
     | Some t => sequelize_query (LOCK_TABLE t) [] QueryTypes.RAW;; rest
     | None => rest
     end)
    (λ error,
       console_error (sh_message sh) error;;
       sequelize_query ROLLBACK [] QueryTypes.RAW;;
       mret undefined).

Definition only_results : list Row → Z → list JsValue := λ results _, [JsArray results].
Definition the_results : list Row → Z → JsValue := λ results _, JsArray results.

Definition shape (op : WriteOp) : Shape :=
  match op with
  | CreateUser userInfo =>
      mkShape None
        (INSERT_INTO "Users" ["Email"; "FirstName"; "LastName"; "DOB"; "Password"]
           [?0; ?1; ?2; ?3; ?4])
        [VStr (ISignUpInfo.email userInfo);
         VStr (ISignUpInfo.firstname userInfo);
         VStr (ISignUpInfo.lastname userInfo);
         VStr (ISignUpInfo.dob userInfo);
         VStr (ISignUpInfo.password userInfo)]
        QueryTypes.INSERT "Failed to create user: "
        (λ results metadata, [JsArray results; JsNumber metadata])
        (λ _ metadata, JsNumber metadata)
  | CreateShop shopInfo =>
      mkShape None
        (INSERT_INTO "Shops" ["ShopName"; "EstablishDate"; "Description"; "Owner"]
           [?0; CURRENT_DATE; ?1; ?2])
        [VStr (ICreateShopInfo.shopname shopInfo);
         VStr (ICreateShopInfo.description shopInfo);
         VStr (ICreateShopInfo.ownerid shopInfo)]
        QueryTypes.INSERT "Failed to create shop: " only_results the_results
  | MakeSeller userID =>
      mkShape None (INSERT_INTO "Sellers" ["sellerid"] [?0]) [VStr userID]
        QueryTypes.INSERT "Failed to add user as a seller: " only_results the_results
  | CreateProduct productInfo =>
      mkShape None
        (INSERT_INTO "Products" ["shopid"; "price"; "name"; "quantity"; "description"]
           [?0; ?1; ?2; ?3; ?4])
        [VStr (ICreateProductInfo.shopid productInfo);
         VInt (ICreateProductInfo.price productInfo);
         VStr (ICreateProductInfo.name productInfo);
         VInt (ICreateProductInfo.quantity productInfo);
         VStr (ICreateProductInfo.description productInfo)]
        QueryTypes.INSERT "Failed to create product: " only_results the_results
  | CreateOrder createOrderInfo =>
      mkShape None
        (INSERT_INTO "Orders" ["Buyer"; "Shop"; "Product"; "Quantity"; "OrderTime"]
           [?0; ?1; ?2; ?3; CURRENT_TIMESTAMP])
        [VStr (ICreateOrderInfo.userid createOrderInfo);
         VStr (ICreateOrderInfo.shopid createOrderInfo);
         VStr (ICreateOrderInfo.productid createOrderInfo);
         VInt (ICreateOrderInfo.quantity createOrderInfo)]
        QueryTypes.INSERT "Failed to create new order: " only_results the_results
  | SetProductQuantity shopid productid newQuantity =>
      mkShape (Some "Products")
        (UPDATE "Products" [("quantity", ?0)]
           (AND (EQ (Column "shopid") ?1) (EQ (Column "productid") ?2)))
        [VInt newQuantity; VStr shopid; VStr productid]
        QueryTypes.UPDATE "Failed to update product quantity: " only_results the_results
  | UpdateUserData newUserInfo =>
      mkShape (Some "Users")
        (UPDATE "Users"
           [("userid", ?0); ("firstname", ?1); ("lastname", ?2);
            ("email", ?3); ("dob", ?4); ("password", ?5)]
           (EQ (Column "userid") ?6))
        [VStr (IUserInfoView.userid newUserInfo);
         VStr (IUserInfoView.firstname newUserInfo);
         VStr (IUserInfoView.lastname newUserInfo);
         VStr (IUserInfoView.email newUserInfo);
         VStr (IUserInfoView.dob newUserInfo);
         VStr (IUserInfoView.password newUserInfo);
         VStr (IUserInfoView.userid newUserInfo)]
        QueryTypes.UPDATE "Failed to update user info:" only_results the_results
  end.

(** The round trips of a writer's [try] block, in order. *)
Definition round_trips (sh : Shape) : list (Sql * list Value * QueryTypes.t) :=
  [(BEGIN, [], QueryTypes.RAW)]
  ++ match sh_lock sh with
     | Some t => [(LOCK_TABLE t, [], QueryTypes.RAW)]
     | None => []
     end
  ++ [(sh_statement sh, sh_replacements sh, sh_type sh); (COMMIT, [], QueryTypes.RAW)].

Definition sent (e : option DbError) (x : Sql * list Value * QueryTypes.t) : Sent :=
  mkSent x.1.1 x.1.2 x.2 e.

(** The round trips a call added to the wire. *)
Definition issued (before after : World) : list Sent :=
  drop (length (wire before)) (wire after).

(** The environment rejects none of the coming round trips. *)
Definition quiet (fs : list bool) : Prop := Forall (λ b, b = false) fs.

Definition is_mutation (q : Sql) : bool :=
  match q with
  | INSERT_INTO _ _ _ | UPDATE _ _ _ => true
  | _ => false
  end.

(** ** Vocabulary of the properties *)

(** *** The environment *)

(** The next round trip is not rejected and the session is not in a failed
    transaction block: a read sent now is executed. *)
Definition usable (w : World) : Prop :=
  next_fault (faults w) = false ∧ ∀ saved, status (server w) ≠ Failed saved.

(** The world after a round trip that went well and changed no table. *)
Definition after_query (q : Sql) (repl : list Value) (ty : QueryTypes.t)
    (w : World) : World :=
  mkWorld (server w) (tail (faults w)) (wire w ++ [mkSent q repl ty None]) (console w).

(** *** Round trips *)

Definition unsent (x : Sent) : Sql * list Value * QueryTypes.t :=
  (sent_sql x, sent_replacements x, sent_type x).

(** No round trip of [l] failed. *)
Definition succeeded (l : list Sent) : Prop := Forall (λ x, sent_error x = None) l.

(** The table a writer locks, and the table a mutating statement names. *)
Definition locked_table (op : WriteOp) : option string :=
  match op with
  | SetProductQuantity _ _ _ => Some "Products"
  | UpdateUserData _ => Some "Users"
  | CreateUser _ | CreateShop _ | MakeSeller _ | CreateProduct _ | CreateOrder _ => None
  end.

Definition target (q : Sql) : option string :=
  match q with
  | INSERT_INTO t _ _ | UPDATE t _ _ => Some t
  | _ => None
  end.

(** What the lemmas on [transaction] ask of a shape: its statement is an
    INSERT or an UPDATE and the table it locks exists. *)
Definition well_formed (sh : Shape) : Prop :=
  is_mutation (sh_statement sh) = true ∧
  ∀ t, sh_lock sh = Some t → is_Some (table_named t).

(** *** Rows *)


(** Column [c] of row [r] holds a text that, lower-cased, matches the LIKE
    pattern [%S%]. *)
Definition matches_like (c S : string) (r : Row) : bool :=
  match r !! c with
  | Some (VStr n) => like (chars (like_pattern S)) (lower (chars n))
  | _ => false
  end.

(** The shop row createShop inserts. *)
Definition shop_row (clk : Clock) (seq : Z) (shopInfo : ICreateShopInfo.t) : Row :=
  new_row clk
    [VStr (ICreateShopInfo.shopname shopInfo);
     VStr (ICreateShopInfo.description shopInfo);
     VStr (ICreateShopInfo.ownerid shopInfo)]
    seq Shops ["ShopName"; "EstablishDate"; "Description"; "Owner"]
    [?0; CURRENT_DATE; ?1; ?2].

(** The user row createUser inserts. *)
Definition user_row (clk : Clock) (seq : Z) (userInfo : ISignUpInfo.t) : Row :=
  new_row clk
    [VStr (ISignUpInfo.email userInfo);
     VStr (ISignUpInfo.firstname userInfo);
     VStr (ISignUpInfo.lastname userInfo);
     VStr (ISignUpInfo.dob userInfo);
     VStr (ISignUpInfo.password userInfo)]
    seq Users ["Email"; "FirstName"; "LastName"; "DOB"; "Password"]
    [?0; ?1; ?2; ?3; ?4].

(** The product row createProduct inserts. *)
Definition product_row (clk : Clock) (seq : Z) (productInfo : ICreateProductInfo.t) : Row :=
  new_row clk
    [VStr (ICreateProductInfo.shopid productInfo);
     VInt (ICreateProductInfo.price productInfo);
     VStr (ICreateProductInfo.name productInfo);
     VInt (ICreateProductInfo.quantity productInfo);
     VStr (ICreateProductInfo.description productInfo)]
    seq Products ["shopid"; "price"; "name"; "quantity"; "description"]
    [?0; ?1; ?2; ?3; ?4].

(** No user row holds [email]. *)
Definition email_free (email : string) (d : Tables) : Prop :=
  ∀ r, r ∈ users d → r !! "email" ≠ Some (VStr email).

(** The rows of the product (shopid, productid), and the update
    setProductQuantity makes to a row. *)
Definition is_product (shopid productid : string) (r : Row) : bool :=
  has_value "shopid" (VStr shopid) r && has_value "productid" (VStr productid) r.

Definition set_quantity (shopid productid : string) (N : Z) (r : Row) : Row :=
  if is_product shopid productid r then <["quantity" := VInt N]> r else r.

(** No product row holds a negative quantity. *)
Definition quantities_nonneg (d : Tables) : Prop :=
  ∀ (r : Row) (q : Z), r ∈ products d → r !! "quantity" = Some (VInt q) → 0 ≤ q.

(** The quantity a caller hands to createProduct or setProductQuantity is
    not negative. *)
Definition supplied_quantity_nonneg (op : Operation) : Prop :=
  match op with
  | Writing (CreateProduct productInfo) => 0 ≤ ICreateProductInfo.quantity productInfo
  | Writing (SetProductQuantity _ _ newQuantity) => 0 ≤ newQuantity
  | _ => True
  end.

(** The columns updateUserData can change. *)
Definition profile_columns : list string :=
  ["firstname"; "lastname"; "email"; "dob"; "password"].

(** *** A small database to run the functions on *)

Definition alice : Row :=
  {[ "userid" := VStr "1"; "email" := VStr "alice@example.org";
     "firstname" := VStr "Alice"; "lastname" := VStr "Martin";
     "dob" := VStr "1990-04-01"; "password" := VStr "secret" ]}.

Definition orchard : Row :=
  {[ "shopid" := VStr "1"; "shopname" := VStr "Apple Orchard";
     "establishdate" := VDate 19000; "description" := VStr "Fruit";
     "owner" := VStr "1" ]}.

Definition pear : Row :=
  {[ "productid" := VStr "1"; "shopid" := VStr "1"; "price" := VInt 3;
     "name" := VStr "Pear"; "quantity" := VInt 7; "description" := VStr "Ripe" ]}.

Definition demo_tables : Tables :=
  mkTables [alice] [orchard] [ {[ "sellerid" := VStr "1" ]} ] [pear] [].

Definition demo_server : Server := mkServer demo_tables Idle 2 (mkClock 20000 1728000000).

(** The demo database on an idle session, with the rejections [fs] to come. *)
Definition demo (fs : list bool) : World := mkWorld demo_server fs [] [].

Definition signup_bob : ISignUpInfo.t :=
  ISignUpInfo.mk "bob@example.org" "Bob" "Durand" "1985-12-24" "hunter2".

Definition signup_alice_again : ISignUpInfo.t :=
  ISignUpInfo.mk "alice@example.org" "Alice" "Other" "1991-01-01" "pw".

(** *** Vocabulary of the further properties *)

(** The table the statement of a writer names. *)
Definition written_table (op : WriteOp) : Table :=
  match op with
  | CreateUser _ | UpdateUserData _ => Users
  | CreateShop _ => Shops
  | MakeSeller _ => Sellers
  | CreateProduct _ | SetProductQuantity _ _ _ => Products
  | CreateOrder _ => Orders
  end.

(** The order row createOrder inserts. *)
Definition order_row (clk : Clock) (seq : Z) (createOrderInfo : ICreateOrderInfo.t) : Row :=
  new_row clk
    [VStr (ICreateOrderInfo.userid createOrderInfo);
     VStr (ICreateOrderInfo.shopid createOrderInfo);
     VStr (ICreateOrderInfo.productid createOrderInfo);
     VInt (ICreateOrderInfo.quantity createOrderInfo)]
    seq Orders ["Buyer"; "Shop"; "Product"; "Quantity"; "OrderTime"]
    [?0; ?1; ?2; ?3; CURRENT_TIMESTAMP].

(** The seller row makeSeller inserts. *)
Definition seller_row (userID : string) : Row := {[ "sellerid" := VStr userID ]}.

(** The update updateUserData makes to a user row it selects. *)
Definition set_profile (newUserInfo : IUserInfoView.t) (r : Row) : Row :=
  <["userid" := VStr (IUserInfoView.userid newUserInfo)]>
    (<["firstname" := VStr (IUserInfoView.firstname newUserInfo)]>
       (<["lastname" := VStr (IUserInfoView.lastname newUserInfo)]>
          (<["email" := VStr (IUserInfoView.email newUserInfo)]>
             (<["dob" := VStr (IUserInfoView.dob newUserInfo)]>
                (<["password" := VStr (IUserInfoView.password newUserInfo)]> r))))).

(** The tables after the UPDATE of updateUserData. *)
Definition updated_users (newUserInfo : IUserInfoView.t) (before : Tables) : Tables :=
  set_rows Users
    ((λ r, if has_value "userid" (VStr (IUserInfoView.userid newUserInfo)) r
           then set_profile newUserInfo r else r) <$> users before)
    before.

(** Column [c] of row [r] holds a text. *)
Definition is_text (c : string) (r : Row) : bool :=
  match r !! c with
  | Some (VStr _) => true
  | _ => false
  end.

(** A second shop and a second product for the demo database. *)
Definition bakery : Row :=
  {[ "shopid" := VStr "2"; "shopname" := VStr "Bakery";
     "establishdate" := VDate 19500; "description" := VStr "Bread";
     "owner" := VStr "1" ]}.

Definition plum : Row :=
  {[ "productid" := VStr "2"; "shopid" := VStr "1"; "price" := VInt 2;
     "name" := VStr "Plum"; "quantity" := VInt 4; "description" := VStr "Sweet" ]}.

Definition market_tables : Tables :=
  mkTables [alice] [orchard; bakery] [seller_row "1"] [pear; plum] [].

Definition market (fs : list bool) : World :=
  mkWorld (mkServer market_tables Idle 3 (mkClock 20000 1728000000)) fs [] [].

(** * Lemmas *)

(** ** The functions at work on the demo database *)

Example createUser_accepted :
  (createUser signup_bob (demo [])).1 = Resolved (JsNumber 1).
Proof. reflexivity. Qed.

Example createUser_duplicate_email :
  let r := createUser signup_alice_again (demo []) in
  r.1 = Resolved undefined
  ∧ sent_error <$> wire r.2 = [None; Some (UniqueViolation "email"); None]
  ∧ tables (server r.2) = demo_tables.
Proof. vm_compute. repeat split. Qed.

Example checkIfUserExists_alice :
  (checkIfUserExists "alice@example.org" (demo [])).1 = Resolved (JsColumn (VBool true))
  ∧ (checkIfUserExists "bob@example.org" (demo [])).1 = Resolved (JsColumn (VBool false)).
Proof. vm_compute. repeat split. Qed.

Example getShopsOwnedByUser_alice :
  (getShopsOwnedByUser "1" (demo [])).1
  = Resolved [rename_column "owner" "ownerid" orchard].
Proof. vm_compute. reflexivity. Qed.

Example createOrder_unknown_product :
  let r := createOrder (ICreateOrderInfo.mk "1" "1" "9" 2) (demo []) in
  r.1 = Resolved undefined
  ∧ console r.2
    = [ErrorLine "Failed to create new order: "
         (DatabaseError (ForeignKeyViolation "product"))].
Proof. vm_compute. repeat split. Qed.

Example getProduct_on_broken_connection :
  (getProduct "1" "1" (demo [true])).1 = Rejected (DatabaseError ConnectionError).
Proof. reflexivity. Qed.

(** ** The writers are instances of [transaction] *)

Lemma run_write_transaction (op : WriteOp) : run_write op = transaction (shape op).
Proof. destruct op; reflexivity. Qed.

(** ** One round trip *)

(** A round trip either resolves, the engine having executed the statement,
    or is rejected, by the environment (and the session is abandoned) or
    with the engine's error; in both cases it is added to the wire. *)
Lemma query_step q repl ty w :
  match sequelize_query q repl ty w with
  | (Resolved res, w') =>
      next_fault (faults w) = false ∧
      exec q repl (server w) = (inr res, server w') ∧
      faults w' = tail (faults w) ∧
      wire w' = wire w ++ [mkSent q repl ty None] ∧
      console w' = console w
  | (Rejected x, w') =>
      ∃ e, x = DatabaseError e ∧
        faults w' = tail (faults w) ∧
        wire w' = wire w ++ [mkSent q repl ty (Some e)] ∧
        console w' = console w ∧
        ((next_fault (faults w) = true ∧ e = ConnectionError
          ∧ server w' = abandon (server w))
         ∨ (next_fault (faults w) = false ∧ exec q repl (server w) = (inl e, server w')))
  end.
Proof.
  unfold sequelize_query.
  destruct (next_fault (faults w)) eqn:F.
  - exists ConnectionError. simpl. auto 10.
  - destruct (exec q repl (server w)) as [[e|res] s] eqn:E; simpl.
    + exists e. auto 10.
    + auto.
Qed.

Ltac step q :=
  let H := fresh "Q" in
  let r := fresh "r" in
  let x := fresh "x" in
  let w := fresh "w" in
  match goal with
  | |- context [sequelize_query q ?repl ?ty ?w0] =>
      pose proof (query_step q repl ty w0) as H;
      destruct (sequelize_query q repl ty w0) as [[r|x] w]
  end.

Ltac facts :=
  repeat match goal with
         | H : _ ∧ _ |- _ => destruct H
         | H : ∃ _, _ |- _ => destruct H
         end;
  simpl in *; subst.

Ltac wires :=
  repeat match goal with
         | H : wire _ = _ |- _ => rewrite H; clear H
         | H : console _ = _ |- _ => rewrite H; clear H
         end;
  simpl; rewrite <- ?app_assoc; simpl; try reflexivity.

Ltac rollback_leaf pre x post :=
  unfold console_error; simpl; step ROLLBACK; facts;
  intros [= <- <-]; right;
  match goal with
  | H : wire _ = _ ++ [mkSent ROLLBACK _ _ ?rb] |- _ =>
      match goal with
      | H' : console _ = _ ++ [ErrorLine _ (DatabaseError ?e)] |- _ =>
          exists pre, x, post, e, rb
      end
  end;
  (split; [reflexivity|]); (split; [wires|]); (split; [wires|]); reflexivity.

(** ** What a writer sends, logs and returns *)

(** Either every round trip of the [try] block went well, and the writer
    logs and returns its result; or one of them failed, and the writer has
    sent those before it, logs the error, sends ROLLBACK and returns
    [undefined], unless ROLLBACK is rejected as well. *)
Lemma transaction_trace sh w out w' :
  transaction sh w = (out, w') →
  (∃ rs n,
      out = Resolved (sh_value sh rs n) ∧
      wire w' = wire w ++ (sent None <$> round_trips sh) ∧
      console w' = console w ++ [LogLine (sh_logged sh rs n)])
  ∨
  (∃ pre x post e rb,
      round_trips sh = pre ++ x :: post ∧
      wire w' = wire w ++ (sent None <$> pre)
                ++ [sent (Some e) x; mkSent ROLLBACK [] QueryTypes.RAW rb] ∧
      console w' = console w ++ [ErrorLine (sh_message sh) (DatabaseError e)] ∧
      out = match rb with
            | None => Resolved undefined
            | Some e' => Rejected (DatabaseError e')
            end).
Proof.
  destruct sh as [lock stmt repl ty msg lg val].
  unfold transaction, try_catch, round_trips, mbind, Async_bind, mret, Async_ret; simpl.
  set (b := (BEGIN, @nil Value, QueryTypes.RAW)).
  set (m := (stmt, repl, ty)).
  set (c := (COMMIT, @nil Value, QueryTypes.RAW)).
  destruct lock as [t|].
  - set (l := (LOCK_TABLE t, @nil Value, QueryTypes.RAW)).
    step BEGIN; [step (LOCK_TABLE t); [step stmt; [destruct r1 as [rs n]; step COMMIT|]|]|].
    + facts. unfold console_log; simpl. intros [= <- <-]. left. exists rs, n.
      split; [reflexivity|]. split; simpl; wires.
    + rollback_leaf [b; l; m] c (@nil (Sql * list Value * QueryTypes.t)).
    + rollback_leaf [b; l] m [c].
    + rollback_leaf [b] l [m; c].
    + rollback_leaf (@nil (Sql * list Value * QueryTypes.t)) b [l; m; c].
  - step BEGIN; [step stmt; [destruct r0 as [rs n]; step COMMIT|]|].
    + facts. unfold console_log; simpl. intros [= <- <-]. left. exists rs, n.
      split; [reflexivity|]. split; simpl; wires.
    + rollback_leaf [b; m] c (@nil (Sql * list Value * QueryTypes.t)).
    + rollback_leaf [b] m [c].
    + rollback_leaf (@nil (Sql * list Value * QueryTypes.t)) b [m; c].
Qed.

(** ** What a writer does to the tables of an idle session *)

Lemma not_quiet_true fs : ¬ quiet (true :: fs).
Proof. intros H. inversion H. discriminate. Qed.

Lemma not_quiet_cons b fs : ¬ quiet fs → ¬ quiet (b :: fs).
Proof. intros H Q. inversion Q. auto. Qed.

#[local] Arguments run_statement : simpl never.
#[local] Arguments table_named : simpl never.

(** From an idle session a writer ends on an idle session.  Either its
    statement was accepted and committed, and the tables are those the
    statement produces; or the tables are as before, and then a round trip
    was rejected or the engine refused the statement. *)
Lemma transaction_effect sh w out w' :
  status (server w) = Idle →
  well_formed sh →
  transaction sh w = (out, w') →
  let s := server w in
  status (server w') = Idle ∧
  clock (server w') = clock s ∧
  (∃ k, faults w' = drop k (faults w)) ∧
  ((∃ rs n d,
       run_statement (clock s) (sequence s) (sh_statement sh) (sh_replacements sh)
         (tables s) = inr (rs, n, d) ∧
       tables (server w') = d ∧
       out = Resolved (sh_value sh rs n) ∧
       wire w' = wire w ++ (sent None <$> round_trips sh))
   ∨ (tables (server w') = tables s ∧
      (¬ quiet (faults w)
       ∨ ∃ e, run_statement (clock s) (sequence s) (sh_statement sh)
                (sh_replacements sh) (tables s) = inl e))).
Proof.
  destruct w as [[d st seq clk] fs wr co]; simpl. intros ->.
  destruct sh as [lock stmt repl ty msg lg val]; unfold well_formed; simpl.
  intros [Hmut Hlock].
  unfold transaction, try_catch, round_trips, mbind, Async_bind, mret, Async_ret,
    sequelize_query, console_error, console_log; simpl.
  destruct stmt; try discriminate; destruct lock as [t|];
    try (destruct (Hlock t eq_refl) as [tb Htb]).
  all: repeat (unfold exec, with_status, with_tables, abandon, fail_block; simpl;
               rewrite ?Htb;
               match goal with
               | |- context [next_fault ?fs] => is_var fs; destruct fs as [|[|] fs]
               | |- context [match run_statement ?a ?b ?c ?d ?e with _ => _ end] =>
                   destruct (run_statement a b c d e) as [?|[[? ?] ?]] eqn:?
               end).
  all: unfold exec, with_status, with_tables, abandon, fail_block; simpl; rewrite ?Htb; simpl.
  all: intros [= <- <-]; simpl; (split; [reflexivity|]); (split; [reflexivity|]).
  all: split;
    [ first [ exists 0%nat; reflexivity | exists 1%nat; reflexivity
            | exists 2%nat; reflexivity | exists 3%nat; reflexivity
            | exists 4%nat; reflexivity | exists 5%nat; reflexivity ] |].
  all: try (right; split; [reflexivity|]; first
             [ left; solve [ apply not_quiet_true
                           | apply not_quiet_cons, not_quiet_true
                           | do 2 apply not_quiet_cons; apply not_quiet_true
                           | do 3 apply not_quiet_cons; apply not_quiet_true
                           | do 4 apply not_quiet_cons; apply not_quiet_true ]
             | right; eexists; reflexivity ]).
  all: left; do 3 eexists; (split; [reflexivity|]); (split; [reflexivity|]);
    (split; [reflexivity|]); rewrite <- ?app_assoc; reflexivity.
Qed.

(** ** Conditions *)

Lemma holds_and a b : holds (sql_and a b) = holds a && holds b.
Proof. destruct a as [|[]| | | |], b as [|[]| | | |]; reflexivity. Qed.

Lemma sql_eq_values (x v : Value) :
  x ≠ VNull → v ≠ VNull → sql_eq x v = VBool (bool_decide (x = v)).
Proof. destruct x, v; simpl; congruence. Qed.

Lemma holds_bool (b : bool) : holds (VBool b) = b.
Proof. destruct b; reflexivity. Qed.

Lemma holds_eq (o : option Value) (v : Value) :
  v ≠ VNull → holds (sql_eq (default VNull o) v) = bool_decide (o = Some v).
Proof.
  intros Hv. destruct o as [x|]; simpl.
  - destruct (decide (x = VNull)) as [->|Hx].
    + destruct v; simpl; congruence.
    + rewrite sql_eq_values, holds_bool by assumption.
      apply bool_decide_ext. split; congruence.
  - reflexivity.
Qed.

(** ** Reads *)

Lemma select_query rel R c repl ty w :
  usable w →
  relation_named rel = Some R →
  expr_bound (length repl) c = true →
  let rs := List.filter (selected (clock (server w)) repl c)
              (relation_rows R (tables (server w))) in
  sequelize_query (SELECT_FROM rel (Some c)) repl ty w
  = (Resolved (rs, Z.of_nat (length rs)),
     after_query (SELECT_FROM rel (Some c)) repl ty w).
Proof.
  intros [Hf Hs] HR Hb. unfold sequelize_query, after_query. rewrite Hf.
  destruct w as [[d st seq clk] fs wr co]; simpl in *.
  unfold exec, run_statement; simpl. rewrite Hb, HR; simpl.
  destruct st; simpl; try reflexivity.
  exfalso. eapply Hs. reflexivity.
Qed.

Lemma getUserByEmailAndPassword_rows email password w :
  usable w →
  (getUserByEmailAndPassword email password w).1
  = Resolved
      (List.filter
         (λ r, has_value "email" (VStr email) r && has_value "password" (VStr password) r)
         (view_rows UserInfoView (tables (server w)))).
Proof.
  intros Hw. unfold getUserByEmailAndPassword, fmap, Async_fmap, mbind, Async_bind.
  erewrite select_query; [|exact Hw|reflexivity|reflexivity].
  simpl. f_equal. apply List.filter_ext. intros r.
  unfold selected; simpl. rewrite holds_and, !holds_eq by discriminate.
  reflexivity.
Qed.

(** ** LIKE against a pattern [%S%] *)

Lemma like_percent p s :
  like ("%"%char :: p) s
  = like p s || match s with [] => false | _ :: s' => like ("%"%char :: p) s' end.
Proof. destruct s; reflexivity. Qed.

Lemma like_plain c p s :
  plain c = true →
  like (c :: p) s
  = match s with [] => false | x :: s' => Ascii.eqb c x && like p s' end.
Proof.
  unfold plain. intros H. simpl.
  destruct (Ascii.eqb c "%"); [discriminate|].
  destruct (Ascii.eqb c "_"); [discriminate|].
  destruct (Ascii.eqb c "\"); [discriminate|].
  reflexivity.
Qed.

Lemma like_any s : like ["%"%char] s = true.
Proof. induction s as [|a s IH]; rewrite like_percent; [reflexivity|]. simpl. exact IH. Qed.



Lemma prefixb_spec p s : prefixb p s = true ↔ ∃ b, s = p ++ b.
Proof.
  revert s. induction p as [|c p IH]; intros s.
  - simpl. split; [intros _; exists s; reflexivity | reflexivity].
  - destruct s as [|x s]; simpl.
    + split; [discriminate | intros [b Hb]; discriminate].
    + rewrite andb_true_iff, IH. split.
      * intros [Hc [b ->]]. apply Ascii.eqb_eq in Hc as ->. exists b. reflexivity.
      * intros [b [= -> ->]]. split; [apply Ascii.eqb_refl | exists b; reflexivity].
Qed.

Lemma infixb_spec p s : infixb p s = true ↔ ∃ a b, s = a ++ p ++ b.
Proof.
  induction s as [|x s IH]; simpl; rewrite orb_true_iff, prefixb_spec.
  - split.
    + intros [[b Hb]|?]; [|discriminate]. exists [], b. exact Hb.
    + intros [a [b H]]. left. destruct a; [exists b; exact H | discriminate].
  - rewrite IH. split.
    + intros [[b Hb]|[a [b Hb]]]; [exists [], b; exact Hb|].
      exists (x :: a), b. simpl. rewrite Hb. reflexivity.
    + intros [a [b H]]. destruct a as [|y a]; [left; exists b; exact H|].
      right. injection H as _ H. exists a, b. exact H.
Qed.

Lemma chars_append s t : chars (s +:+ t) = chars s ++ chars t.
Proof.
  unfold chars. induction s as [|c s IH]; simpl; [reflexivity|].
  f_equal. exact IH.
Qed.

Lemma chars_like_pattern S : chars (like_pattern S) = "%"%char :: chars S ++ ["%"%char].
Proof. unfold like_pattern. rewrite !chars_append. reflexivity. Qed.

Lemma chars_LOWER s : chars (LOWER_string s) = lower (chars s).
Proof. unfold LOWER_string, chars. apply list_ascii_of_string_of_list_ascii. Qed.

#[local] Arguments like : simpl never.
#[local] Arguments like_pattern : simpl never.
#[local] Arguments holds : simpl never.
#[local] Arguments chars : simpl never.
#[local] Arguments LOWER_string : simpl never.

Lemma selected_like clk repl i c S r :
  repl !! i = Some (VStr (like_pattern S)) →
  fold_ident c = c →
  selected clk repl (LIKE (LOWER (Column c)) (Placeholder i)) r = matches_like c S r.
Proof.
  intros Hi Hc. unfold selected, matches_like. simpl. rewrite Hi, Hc.
  destruct (r !! c) as [[]|]; simpl; try reflexivity.
  rewrite holds_bool, chars_LOWER. reflexivity.
Qed.


Lemma getShopsLike_rows S w :
  usable w →
  (getShopsLike S w).1
  = Resolved (List.filter (matches_like "shopname" S)
                (view_rows ShopInfoView (tables (server w)))).
Proof.
  intros Hw. unfold getShopsLike, fmap, Async_fmap, mbind, Async_bind.
  erewrite select_query; [|exact Hw|reflexivity|reflexivity].
  simpl. f_equal. apply List.filter_ext. intros r.
  apply selected_like; reflexivity.
Qed.

Lemma getProductsOfShopLike_rows shopid S w :
  usable w →
  (getProductsOfShopLike shopid S w).1
  = Resolved (List.filter
                (λ r, has_value "shopid" (VStr shopid) r && matches_like "name" S r)
                (view_rows ProductInfoView (tables (server w)))).
Proof.
  intros Hw. unfold getProductsOfShopLike, fmap, Async_fmap, mbind, Async_bind.
  erewrite select_query; [|exact Hw|reflexivity|reflexivity].
  simpl. f_equal. apply List.filter_ext. intros r.
  unfold selected at 1. simpl eval. rewrite holds_and. f_equal.
  - rewrite holds_eq by discriminate. reflexivity.
  - transitivity (selected (clock (server w)) [VStr shopid; VStr (like_pattern S)]
                    (LIKE (LOWER (Column "name")) ?1) r); [reflexivity|].
    apply selected_like; reflexivity.
Qed.

(** ** The writers through their common shape *)

Lemma shape_well_formed op : well_formed (shape op).
Proof.
  destruct op; (split; [reflexivity|]); intros t [= <-]; eexists; vm_compute; reflexivity.
Qed.

Lemma issued_app w w' l : wire w' = wire w ++ l → issued w w' = l.
Proof. intros H. unfold issued. rewrite H. apply drop_app_length. Qed.

Lemma unsent_sent e x : unsent (sent e x) = x.
Proof. destruct x as [[q r] t]. reflexivity. Qed.

Lemma unsent_sent_list e (l : list (Sql * list Value * QueryTypes.t)) :
  unsent <$> (sent e <$> l) = l.
Proof.
  induction l as [|x l IH]; [reflexivity|].
  rewrite !fmap_cons, unsent_sent, IH. reflexivity.
Qed.

(** ** Round trips of a read *)

Ltac step_any :=
  let H := fresh "Q" in
  let r := fresh "r" in
  let x := fresh "x" in
  let w := fresh "w" in
  match goal with
  | |- context [sequelize_query ?q ?repl ?ty ?w0] =>
      pose proof (query_step q repl ty w0) as H;
      destruct (sequelize_query q repl ty w0) as [[r|x] w]
  end.

Lemma read_round_trip rd w :
  ∃ q repl e,
    issued w (run_read rd w).2 = [mkSent q repl QueryTypes.SELECT e]
    ∧ is_mutation q = false.
Proof.
  destruct rd; simpl;
    unfold getAllShopsInfo, getAllProductsOfAShop, getShopInfo, checkIfUserExists,
      getUserInfoByEmail, getUserInfoByID, getUserByEmailAndPassword,
      getShopsOwnedByUser, getUsersOrders, getProduct, getProductsOfShopLike,
      getShopsLike, fmap, Async_fmap, mbind, Async_bind, mret, Async_ret, console_log,
      throw;
    step_any; facts;
    try match goal with
        | r : (list Row * Z)%type |- _ => destruct r as [[|? ?] ?]
        end;
    simpl; do 3 eexists; (split; [apply issued_app; simpl; eassumption | reflexivity]).
Qed.

(** ** What a read depends on, and what it leaves behind *)

Ltac unfold_reads :=
  unfold run_read, getAllShopsInfo, getAllProductsOfAShop, getShopInfo, checkIfUserExists,
    getUserInfoByEmail, getUserInfoByID, getUserByEmailAndPassword,
    getShopsOwnedByUser, getUsersOrders, getProduct, getProductsOfShopLike,
    getShopsLike, fmap, Async_fmap, mbind, Async_bind, mret, Async_ret, console_log,
    throw, sequelize_query.

Lemma read_outcome rd w1 w2 :
  tables (server w1) = tables (server w2) →
  status (server w1) = status (server w2) →
  clock (server w1) = clock (server w2) →
  next_fault (faults w1) = next_fault (faults w2) →
  (run_read rd w1).1 = (run_read rd w2).1.
Proof.
  destruct w1 as [[d1 st1 sq1 c1] f1 wr1 co1], w2 as [[d2 st2 sq2 c2] f2 wr2 co2]; simpl.
  intros -> -> -> Hf.
  destruct rd; unfold_reads; simpl; rewrite Hf;
    (destruct (next_fault f2); [reflexivity|]);
    unfold exec, run_statement; destruct st2; simpl; try reflexivity.
  all: repeat match goal with
              | |- context [existsb ?f ?l] => destruct (existsb f l)
              | |- context [List.filter ?f ?l] => destruct (List.filter f l)
              end; reflexivity.
Qed.

Lemma read_effect rd w :
  status (server w) = Idle →
  tables (server (run_read rd w).2) = tables (server w)
  ∧ status (server (run_read rd w).2) = Idle
  ∧ ∃ k, faults (run_read rd w).2 = drop k (faults w).
Proof.
  destruct w as [[d st sq c] f wr co]; simpl. intros ->.
  destruct rd; unfold_reads; simpl;
    (destruct (next_fault f);
     [simpl; split; [reflexivity|]; split; [reflexivity|]; exists 1%nat;
      destruct f; reflexivity|]);
    unfold exec, run_statement; simpl;
    repeat match goal with
           | |- context [existsb ?f ?l] => destruct (existsb f l)
           | |- context [List.filter ?f ?l] => destruct (List.filter f l)
           end; simpl;
    (split; [reflexivity|]; split; [reflexivity|]; exists 1%nat; destruct f; reflexivity).
Qed.

(** ** Effect of a writer on an idle session *)

Lemma write_effect op w :
  status (server w) = Idle →
  let r := run_write op w in
  let s := server w in
  let sh := shape op in
  status (server r.2) = Idle ∧
  clock (server r.2) = clock s ∧
  (∃ k, faults r.2 = drop k (faults w)) ∧
  ((∃ rs n d,
       run_statement (clock s) (sequence s) (sh_statement sh) (sh_replacements sh)
         (tables s) = inr (rs, n, d) ∧
       tables (server r.2) = d ∧
       r.1 = Resolved (sh_value sh rs n) ∧
       wire r.2 = wire w ++ (sent None <$> round_trips sh))
   ∨ (tables (server r.2) = tables s ∧
      (¬ quiet (faults w)
       ∨ ∃ e, run_statement (clock s) (sequence s) (sh_statement sh)
                (sh_replacements sh) (tables s) = inl e))).
Proof.
  intros Hidle r s sh. subst r. rewrite run_write_transaction.
  destruct (transaction (shape op) w) as [out w'] eqn:E.
  exact (transaction_effect _ _ _ _ Hidle (shape_well_formed op) E).
Qed.

(** The session is idle between operations: an operation that finds it
    idle leaves it idle, whatever the environment does. *)
Lemma run_preserves_idle op w :
  status (server w) = Idle → status (server (run op w).2) = Idle.
Proof.
  intros H. destruct op as [op|rd]; simpl.
  - apply (write_effect op w H).
  - apply (read_effect rd w H).
Qed.

(** ** The mutating statements *)

Lemma run_insert clk seq t tb cols vals repl d :
  table_named t = Some tb →
  forallb (expr_bound (length repl)) vals = true →
  length cols = length vals →
  run_statement clk seq (INSERT_INTO t cols vals) repl d
  = match insert_violation tb d (new_row clk repl seq tb cols vals) with
    | Some e => inl e
    | None =>
        inr ([], 1, set_rows tb (rows_of tb d ++ [new_row clk repl seq tb cols vals]) d)
    end.
Proof.
  intros Ht Hb Hl. unfold run_statement. simpl. rewrite Hb, Ht. simpl.
  rewrite Hl, Nat.eqb_refl. reflexivity.
Qed.

Lemma run_update clk seq t tb sets c repl d :
  table_named t = Some tb →
  sql_bound (length repl) (UPDATE t sets c) = true →
  run_statement clk seq (UPDATE t sets c) repl d
  = match update_violation tb (rows_of tb d)
            (update_row clk repl sets c <$> rows_of tb d) with
    | Some e => inl e
    | None =>
        inr ([], Z.of_nat (length (List.filter (selected clk repl c) (rows_of tb d))),
             set_rows tb (update_row clk repl sets c <$> rows_of tb d) d)
    end.
Proof.
  intros Ht Hb. unfold run_statement. rewrite Hb, Ht. reflexivity.
Qed.

Lemma quiet_next fs : quiet fs → next_fault fs = false.
Proof. intros H. destruct H as [|b fs Hb _]; [reflexivity | exact Hb]. Qed.

Lemma quiet_drop k fs : quiet fs → quiet (drop k fs).
Proof. apply Forall_drop. Qed.

Lemma shop_row_columns clk seq shopInfo :
  shop_row clk seq shopInfo
  = {[ "shopid" := VStr (pretty seq);
       "shopname" := VStr (ICreateShopInfo.shopname shopInfo);
       "establishdate" := VDate (today clk);
       "description" := VStr (ICreateShopInfo.description shopInfo);
       "owner" := VStr (ICreateShopInfo.ownerid shopInfo) ]}.
Proof. vm_compute. reflexivity. Qed.

Lemma createShop_statement clk seq shopInfo d :
  let sh := shape (CreateShop shopInfo) in
  run_statement clk seq (sh_statement sh) (sh_replacements sh) d
  = inr ([], 1, set_rows Shops (shops d ++ [shop_row clk seq shopInfo]) d).
Proof.
  simpl. erewrite run_insert; [|reflexivity..]. reflexivity.
Qed.

Lemma filter_none {A} (f : A → bool) (l : list A) :
  (∀ x, x ∈ l → f x = false) → List.filter f l = [].
Proof.
  induction l as [|a l IH]; intros H; [reflexivity|]. simpl.
  rewrite (H a) by apply list_elem_of_here.
  apply IH. intros x Hx. apply H. apply list_elem_of_further. exact Hx.
Qed.

Lemma existsb_none {A} (f : A → bool) (l : list A) :
  (∀ x, x ∈ l → f x = false) → existsb f l = false.
Proof.
  induction l as [|a l IH]; intros H; [reflexivity|]. simpl.
  rewrite (H a) by apply list_elem_of_here.
  apply IH. intros x Hx. apply H. apply list_elem_of_further. exact Hx.
Qed.

Lemma has_value_false c v (r : Row) : r !! c ≠ Some v → has_value c v r = false.
Proof. intros H. unfold has_value. apply bool_decide_eq_false_2. exact H. Qed.

Lemma has_value_true c v (r : Row) : r !! c = Some v → has_value c v r = true.
Proof. intros H. unfold has_value. apply bool_decide_eq_true_2. exact H. Qed.

Lemma usable_after w w' k :
  quiet (faults w) → faults w' = drop k (faults w) → status (server w') = Idle →
  usable w'.
Proof.
  intros Hq Hf Hs. split.
  - rewrite Hf. apply quiet_next, quiet_drop, Hq.
  - intros saved. rewrite Hs. discriminate.
Qed.

Lemma user_row_columns clk seq userInfo :
  user_row clk seq userInfo
  = {[ "userid" := VStr (pretty seq);
       "email" := VStr (ISignUpInfo.email userInfo);
       "firstname" := VStr (ISignUpInfo.firstname userInfo);
       "lastname" := VStr (ISignUpInfo.lastname userInfo);
       "dob" := VStr (ISignUpInfo.dob userInfo);
       "password" := VStr (ISignUpInfo.password userInfo) ]}.
Proof. vm_compute. reflexivity. Qed.

Lemma createUser_statement clk seq userInfo d :
  email_free (ISignUpInfo.email userInfo) d →
  let sh := shape (CreateUser userInfo) in
  run_statement clk seq (sh_statement sh) (sh_replacements sh) d
  = inr ([], 1, set_rows Users (users d ++ [user_row clk seq userInfo]) d).
Proof.
  intros Hfree. simpl. erewrite run_insert; [|reflexivity..].
  fold (user_row clk seq userInfo).
  unfold insert_violation.
  replace (user_row clk seq userInfo !! "email")
    with (Some (VStr (ISignUpInfo.email userInfo)))
    by (rewrite user_row_columns; vm_compute; reflexivity).
  unfold fresh_in. rewrite existsb_none; [reflexivity|].
  intros r Hr. apply has_value_false, Hfree, Hr.
Qed.

Lemma is_product_set_quantity shopid productid N (r : Row) :
  is_product shopid productid (<["quantity" := VInt N]> r) = is_product shopid productid r.
Proof.
  unfold is_product, has_value. rewrite !lookup_insert_ne by discriminate. reflexivity.
Qed.

Lemma selected_product clk repl i j shopid productid r :
  repl !! i = Some (VStr shopid) →
  repl !! j = Some (VStr productid) →
  selected clk repl
    (AND (EQ (Column "shopid") (Placeholder i)) (EQ (Column "productid") (Placeholder j))) r
  = is_product shopid productid r.
Proof.
  intros Hi Hj. unfold selected, is_product. simpl eval. rewrite Hi, Hj. simpl default.
  rewrite holds_and, !holds_eq by discriminate. reflexivity.
Qed.

Lemma setProductQuantity_statement clk seq shopid productid N d :
  let sh := shape (SetProductQuantity shopid productid N) in
  ∃ n,
    run_statement clk seq (sh_statement sh) (sh_replacements sh) d
    = inr ([], n, set_rows Products (set_quantity shopid productid N <$> products d) d).
Proof.
  simpl. erewrite run_update; [|reflexivity..]. simpl. eexists. f_equal. f_equal.
  f_equal. apply list_fmap_ext. intros _ r _.
  unfold update_row, set_quantity.
  rewrite (selected_product _ _ 1 2 shopid productid) by reflexivity.
  reflexivity.
Qed.


Lemma product_row_quantity clk seq productInfo :
  product_row clk seq productInfo !! "quantity"
  = Some (VInt (ICreateProductInfo.quantity productInfo)).
Proof. vm_compute. reflexivity. Qed.

Lemma createProduct_statement clk seq productInfo d :
  let sh := shape (CreateProduct productInfo) in
  run_statement clk seq (sh_statement sh) (sh_replacements sh) d
  = inr ([], 1, set_rows Products (products d ++ [product_row clk seq productInfo]) d).
Proof.
  simpl. erewrite run_insert; [|reflexivity..]. reflexivity.
Qed.

(** A statement aimed at another table leaves the product rows alone. *)
Lemma run_statement_products clk seq q repl d rs n d' :
  run_statement clk seq q repl d = inr (rs, n, d') →
  (∀ t, target q = Some t → table_named t ≠ Some Products) →
  products d' = products d.
Proof.
  unfold run_statement. destruct (sql_bound (length repl) q); [|discriminate]. simpl.
  destruct q; simpl; intros H Ht; try (injection H as _ _ <-; reflexivity).
  - specialize (Ht table eq_refl).
    destruct (table_named table) as [tb|]; [|discriminate].
    destruct (negb (length columns =? length values)%nat); [discriminate|].
    destruct (insert_violation tb d _); [discriminate|].
    injection H as _ _ <-. destruct tb; try reflexivity. congruence.
  - specialize (Ht table eq_refl).
    destruct (table_named table) as [tb|]; [|discriminate].
    destruct (update_violation tb _ _); [discriminate|].
    injection H as _ _ <-. destruct tb; try reflexivity. congruence.
  - destruct (relation_named relation); [|discriminate]. injection H as _ _ <-. reflexivity.
  - destruct (relation_named relation); [|discriminate]. injection H as _ _ <-. reflexivity.
Qed.

(** ** The statement of updateUserData *)

Ltac fold_idents :=
  repeat match goal with
         | |- context [fold_ident ?s] =>
             let s' := eval vm_compute in (fold_ident s) in
             change (fold_ident s) with s'
         | H : context [fold_ident ?s] |- _ =>
             let s' := eval vm_compute in (fold_ident s) in
             change (fold_ident s) with s' in H
         end.

Lemma updateUserData_row clk newUserInfo (r : Row) (c : string) :
  c ∉ profile_columns →
  let sh := shape (UpdateUserData newUserInfo) in
  match sh_statement sh with
  | UPDATE _ sets cond => update_row clk (sh_replacements sh) sets cond r !! c = r !! c
  | _ => True
  end.
Proof.
  intros Hc. simpl. unfold update_row.
  destruct (selected _ _ _ r) eqn:S; [|reflexivity].
  unfold selected in S. simpl eval in S. rewrite holds_eq in S by discriminate.
  apply bool_decide_eq_true_1 in S.
  unfold profile_columns in Hc. rewrite !not_elem_of_cons in Hc.
  destruct Hc as (H1 & H2 & H3 & H4 & H5 & _).
  unfold assign. simpl foldr. simpl eval. fold_idents.
  destruct (decide (c = "userid")) as [->|H0].
  - rewrite S. apply lookup_insert_eq.
  - rewrite !lookup_insert_ne by (intros E; symmetry in E; contradiction).
    reflexivity.
Qed.

(** * The properties of the module *)

(** C1, amended: when a round trip of a writer's BEGIN/statement/COMMIT
    sequence fails, the writer has sent the statements of the sequence in
    order up to the failing one, logs the error on the console, sends
    ROLLBACK next and nothing after it, and then returns [undefined] if the
    ROLLBACK round trip succeeded; if ROLLBACK is rejected too, the call is
    rejected with ROLLBACK's error. *)
Theorem write_failure_is_logged_and_rolled_back (op : WriteOp) (w : World) :
  let r := run_write op w in
  (∃ x, x ∈ issued w r.2 ∧ sent_sql x ≠ ROLLBACK ∧ is_Some (sent_error x)) →
  ∃ pre x e rb,
    issued w r.2 = pre ++ [x; mkSent ROLLBACK [] QueryTypes.RAW rb]
    ∧ Forall (λ y, sent_error y = None) pre
    ∧ sent_error x = Some e
    ∧ (unsent <$> pre ++ [x]) `prefix_of` round_trips (shape op)
    ∧ console r.2 = console w ++ [ErrorLine (sh_message (shape op)) (DatabaseError e)]
    ∧ r.1 = match rb with
            | None => Resolved undefined
            | Some e' => Rejected (DatabaseError e')
            end.
Proof.
  intros r Hfail. subst r. rewrite run_write_transaction in *.
  destruct (transaction (shape op) w) as [out w'] eqn:E. simpl in *.
  destruct (transaction_trace _ _ _ _ E)
    as [(rs & n & Hout & Hwire & Hcon)
       | (pre & x & post & e & rb & Hrt & Hwire & Hcon & Hout)].
  - exfalso. destruct Hfail as (y & Hy & _ & [e Herr]).
    rewrite (issued_app _ _ _ Hwire) in Hy.
    apply list_elem_of_fmap in Hy as (z & -> & _). discriminate.
  - exists (sent None <$> pre), (sent (Some e) x), e, rb.
    rewrite (issued_app _ _ _ Hwire).
    split; [reflexivity|]. split.
    { apply Forall_fmap, Forall_true. reflexivity. }
    split; [reflexivity|]. split.
    { exists post. rewrite Hrt, fmap_app, unsent_sent_list. simpl.
      rewrite unsent_sent, <- app_assoc. reflexivity. }
    split; assumption.
Qed.

Lemma write_failure_is_logged_and_rolled_back_witness :
  let op := CreateUser signup_alice_again in
  let w := demo [] in
  let r := run_write op w in
  (∃ x, x ∈ issued w r.2 ∧ sent_sql x ≠ ROLLBACK ∧ is_Some (sent_error x))
  ∧ ∃ pre x e rb,
      issued w r.2 = pre ++ [x; mkSent ROLLBACK [] QueryTypes.RAW rb]
      ∧ Forall (λ y, sent_error y = None) pre
      ∧ sent_error x = Some e
      ∧ (unsent <$> pre ++ [x]) `prefix_of` round_trips (shape op)
      ∧ console r.2 = console w ++ [ErrorLine (sh_message (shape op)) (DatabaseError e)]
      ∧ r.1 = match rb with
              | None => Resolved undefined
              | Some e' => Rejected (DatabaseError e')
              end.
Proof.
  intros op w r.
  assert (H : ∃ x, x ∈ issued w r.2 ∧ sent_sql x ≠ ROLLBACK ∧ is_Some (sent_error x)).
  { exists (sent (Some (UniqueViolation "email"))
              (sh_statement (shape op), sh_replacements (shape op), QueryTypes.INSERT)).
    split; [|split; [discriminate | eexists; reflexivity]].
    apply (list_elem_of_lookup_2 _ 1%nat). vm_compute. reflexivity. }
  split; [exact H|].
  exact (write_failure_is_logged_and_rolled_back op w H).
Defined.

(** C1 as stated fails when the connection is down: BEGIN is rejected, the
    error is logged, ROLLBACK is sent and rejected too, and the call is
    rejected with that error instead of returning [undefined]. *)
Lemma rollback_failure_propagates :
  let w := demo [true; true] in
  let r := run_write (CreateUser signup_bob) w in
  issued w r.2
  = [mkSent BEGIN [] QueryTypes.RAW (Some ConnectionError);
     mkSent ROLLBACK [] QueryTypes.RAW (Some ConnectionError)]
  ∧ r.1 = Rejected (DatabaseError ConnectionError)
  ∧ r.1 ≠ Resolved undefined.
Proof. vm_compute. repeat split. discriminate. Qed.

(** C2: a writer is called on an idle session (every operation leaves the
    session idle, [run_preserves_idle]) and its mutating statement fails,
    by a constraint or by a rejected round trip.  Then the tables after the
    call are the tables before it and the session is idle again, so that a
    read made next returns what it returns on the original tables. *)
Theorem failed_write_leaves_tables_unchanged (op : WriteOp) (w : World) :
  status (server w) = Idle →
  let r := run_write op w in
  (∃ x, x ∈ issued w r.2 ∧ sent_sql x = sh_statement (shape op)
        ∧ is_Some (sent_error x)) →
  tables (server r.2) = tables (server w)
  ∧ status (server r.2) = Idle
  ∧ ∀ rd, (run_read rd r.2).1
          = (run_read rd (mkWorld (server w) (faults r.2) (wire w) (console w))).1.
Proof.
  intros Hidle r (x & Hx & Hsql & [e He]).
  destruct (write_effect op w Hidle) as (Hst & Hclk & _ & Heff). fold r in Hst, Hclk, Heff.
  assert (Htab : tables (server r.2) = tables (server w)).
  { destruct Heff as [(rs & n & d & _ & _ & _ & Hwire) | [Htab _]]; [|exact Htab].
    exfalso. rewrite (issued_app _ _ _ Hwire) in Hx.
    apply list_elem_of_fmap in Hx as (z & -> & _). discriminate. }
  split; [exact Htab|]. split; [exact Hst|].
  intros rd. apply read_outcome; simpl; congruence.
Qed.

Lemma failed_write_leaves_tables_unchanged_witness :
  let op := CreateUser signup_alice_again in
  let w := demo [] in
  let r := run_write op w in
  (status (server w) = Idle
   ∧ ∃ x, x ∈ issued w r.2 ∧ sent_sql x = sh_statement (shape op)
          ∧ is_Some (sent_error x))
  ∧ tables (server r.2) = tables (server w)
  ∧ status (server r.2) = Idle
  ∧ ∀ rd, (run_read rd r.2).1
          = (run_read rd (mkWorld (server w) (faults r.2) (wire w) (console w))).1.
Proof.
  intros op w r.
  assert (Hidle : status (server w) = Idle) by reflexivity.
  assert (H : ∃ x, x ∈ issued w r.2 ∧ sent_sql x = sh_statement (shape op)
                   ∧ is_Some (sent_error x)).
  { exists (sent (Some (UniqueViolation "email"))
              (sh_statement (shape op), sh_replacements (shape op), QueryTypes.INSERT)).
    split; [|split; [reflexivity | eexists; reflexivity]].
    apply (list_elem_of_lookup_2 _ 1%nat). vm_compute. reflexivity. }
  split; [split; [exact Hidle | exact H]|].
  exact (failed_write_leaves_tables_unchanged op w Hidle H).
Defined.

(** C7, amended: on its successful path a writer sends, in order, BEGIN,
    then (setProductQuantity and updateUserData only) one LOCK TABLE on the
    table it updates, then exactly one INSERT or UPDATE with every
    placeholder bound, then COMMIT: three statements, and four for the two
    locking writers.  A read sends one statement. *)
Theorem operation_round_trips (op : Operation) (w : World) :
  let l := issued w (run op w).2 in
  succeeded l →
  match op with
  | Reading _ => length l = 1%nat
  | Writing op =>
      l = sent None <$> round_trips (shape op)
      ∧ sent_sql <$> l
        = [BEGIN]
          ++ match locked_table op with Some t => [LOCK_TABLE t] | None => [] end
          ++ [sh_statement (shape op); COMMIT]
      ∧ is_mutation (sh_statement (shape op)) = true
      ∧ sql_bound (length (sh_replacements (shape op))) (sh_statement (shape op)) = true
      ∧ match locked_table op with
        | Some t => target (sh_statement (shape op)) = Some t ∧ length l = 4%nat
        | None => length l = 3%nat
        end
  end.
Proof.
  intros l Hok. destruct op as [op|rd]; simpl in l.
  - assert (Hl : l = sent None <$> round_trips (shape op)).
    { subst l. rewrite run_write_transaction in *.
      destruct (transaction (shape op) w) as [out w'] eqn:E. simpl in *.
      destruct (transaction_trace _ _ _ _ E)
        as [(rs & n & Hout & Hwire & Hcon)
           | (pre & x & post & e & rb & Hrt & Hwire & Hcon & Hout)].
      - apply issued_app. assumption.
      - exfalso. rewrite (issued_app _ _ _ Hwire) in Hok.
        apply Forall_app in Hok as [_ Hok]. inversion Hok as [|? ? Hx _]. discriminate. }
    split; [exact Hl|]. rewrite Hl. clear.
    destruct op; repeat split; reflexivity.
  - subst l. destruct (read_round_trip rd w) as (q & repl & e & -> & _). reflexivity.
Qed.

Lemma operation_round_trips_witness :
  let op := Writing (CreateShop (ICreateShopInfo.mk "Pear Tree" "Pears" "1")) in
  let l := issued (demo []) (run op (demo [])).2 in
  succeeded l
  ∧ sent_sql <$> l
    = [BEGIN;
       INSERT_INTO "Shops" ["ShopName"; "EstablishDate"; "Description"; "Owner"]
         [?0; CURRENT_DATE; ?1; ?2];
       COMMIT].
Proof.
  intros op l.
  assert (H : succeeded l) by (repeat constructor).
  split; [exact H|].
  exact (proj1 (proj2 (operation_round_trips op (demo []) H))).
Defined.

(** C7 as stated fails on the count: the successful path of
    setProductQuantity is four statements, not at most three. *)
Lemma locking_write_sends_four_statements :
  let l := issued (demo []) (run (Writing (SetProductQuantity "1" "1" 5)) (demo [])).2 in
  succeeded l
  ∧ sent_sql <$> l
    = [BEGIN; LOCK_TABLE "Products";
       UPDATE "Products" [("quantity", ?0)]
         (AND (EQ (Column "shopid") ?1) (EQ (Column "productid") ?2));
       COMMIT]
  ∧ ¬ (length l ≤ 3)%nat.
Proof.
  split; [repeat constructor|]. split; [reflexivity|]. vm_compute. lia.
Qed.



(** C6: a signup whose email no user row holds yet, on an idle session and
    with no round trip rejected: createUser followed by getUserInfoByEmail
    for the same email returns one record, and its email, first name, last
    name, date of birth and password are those of the input as they were
    passed (the password is stored as it is received). *)
Theorem createUser_then_getUserInfoByEmail (userInfo : ISignUpInfo.t) (w : World) :
  status (server w) = Idle →
  quiet (faults w) →
  email_free (ISignUpInfo.email userInfo) (tables (server w)) →
  let w1 := (createUser userInfo w).2 in
  ∃ row : Row,
    (getUserInfoByEmail (ISignUpInfo.email userInfo) w1).1 = Resolved [row]
    ∧ row !! "email" = Some (VStr (ISignUpInfo.email userInfo))
    ∧ row !! "firstname" = Some (VStr (ISignUpInfo.firstname userInfo))
    ∧ row !! "lastname" = Some (VStr (ISignUpInfo.lastname userInfo))
    ∧ row !! "dob" = Some (VStr (ISignUpInfo.dob userInfo))
    ∧ row !! "password" = Some (VStr (ISignUpInfo.password userInfo)).
Proof.
  intros Hidle Hq Hfree w1.
  exists (user_row (clock (server w)) (sequence (server w)) userInfo).
  assert (Hcols : ∀ c v,
             ({[ "userid" := VStr (pretty (sequence (server w)));
                 "email" := VStr (ISignUpInfo.email userInfo);
                 "firstname" := VStr (ISignUpInfo.firstname userInfo);
                 "lastname" := VStr (ISignUpInfo.lastname userInfo);
                 "dob" := VStr (ISignUpInfo.dob userInfo);
                 "password" := VStr (ISignUpInfo.password userInfo) ]} : Row) !! c = v →
             user_row (clock (server w)) (sequence (server w)) userInfo !! c = v).
  { intros c v <-. rewrite user_row_columns. reflexivity. }
  split; [|repeat split; apply Hcols; vm_compute; reflexivity].
  destruct (write_effect (CreateUser userInfo) w Hidle) as (Hst & _ & [k Hk] & Heff).
  change (run_write (CreateUser userInfo) w).2 with w1 in Hst, Hk, Heff.
  rewrite (createUser_statement _ _ _ _ Hfree) in Heff.
  destruct Heff as [(rs & n & d & [= <- <- <-] & Htab & _) | [_ [Hn | [e He]]]];
    [|exfalso; exact (Hn Hq)|discriminate].
  unfold getUserInfoByEmail, fmap, Async_fmap, mbind, Async_bind.
  erewrite select_query;
    [|exact (usable_after _ _ _ Hq Hk Hst)|reflexivity|reflexivity].
  simpl. rewrite Htab. simpl. f_equal.
  rewrite List.filter_app, filter_none.
  - simpl. unfold selected at 1. simpl eval.
    rewrite holds_eq by discriminate.
    rewrite bool_decide_eq_true_2; [reflexivity|].
    apply Hcols. vm_compute. reflexivity.
  - intros r Hr. unfold selected. simpl eval. rewrite holds_eq by discriminate.
    apply bool_decide_eq_false_2, Hfree, Hr.
Qed.

Lemma createUser_then_getUserInfoByEmail_witness :
  let w := demo [] in
  let w1 := (createUser signup_bob w).2 in
  (status (server w) = Idle
   ∧ quiet (faults w)
   ∧ email_free "bob@example.org" (tables (server w)))
  ∧ ∃ row : Row,
      (getUserInfoByEmail "bob@example.org" w1).1 = Resolved [row]
      ∧ row !! "email" = Some (VStr "bob@example.org")
      ∧ row !! "firstname" = Some (VStr "Bob")
      ∧ row !! "lastname" = Some (VStr "Durand")
      ∧ row !! "dob" = Some (VStr "1985-12-24")
      ∧ row !! "password" = Some (VStr "hunter2").
Proof.
  intros w w1.
  assert (Hidle : status (server w) = Idle) by reflexivity.
  assert (Hq : quiet (faults w)) by constructor.
  assert (Hfree : email_free "bob@example.org" (tables (server w))).
  { intros r Hr. apply list_elem_of_singleton in Hr as ->. vm_compute. discriminate. }
  split; [repeat split; assumption|].
  exact (createUser_then_getUserInfoByEmail signup_bob w Hidle Hq Hfree).
Defined.

(** C5: the shop row createShop inserts carries, as its establish date, the
    engine's CURRENT_DATE at the time of the call, whatever the caller
    passes: the three bound parameters fill the name, the description and
    the owner.  Called on an idle session, createShop inserts that row
    whenever the environment rejects none of the round trips, and otherwise
    either inserts it or leaves the shops as they were. *)
Theorem createShop_establish_date (shopInfo : ICreateShopInfo.t) (w : World) :
  status (server w) = Idle →
  let r := createShop shopInfo w in
  let before := shops (tables (server w)) in
  let after := shops (tables (server r.2)) in
  ∃ row : Row,
    row !! "establishdate" = Some (VDate (today (clock (server w))))
    ∧ row !! "shopname" = Some (VStr (ICreateShopInfo.shopname shopInfo))
    ∧ row !! "description" = Some (VStr (ICreateShopInfo.description shopInfo))
    ∧ row !! "owner" = Some (VStr (ICreateShopInfo.ownerid shopInfo))
    ∧ (after = before ++ [row] ∨ after = before)
    ∧ (quiet (faults w) → after = before ++ [row]).
Proof.
  intros Hidle r before after.
  exists (shop_row (clock (server w)) (sequence (server w)) shopInfo).
  rewrite shop_row_columns.
  do 4 (split; [vm_compute; reflexivity|]).
  destruct (write_effect (CreateShop shopInfo) w Hidle) as (_ & _ & _ & Heff).
  change (run_write (CreateShop shopInfo) w) with r in Heff.
  rewrite createShop_statement in Heff.
  rewrite <- shop_row_columns.
  subst before after.
  destruct Heff as [(rs & n & d & [= <- <- <-] & Htab & _) | [Htab Hcause]].
  - rewrite Htab. simpl. split; [left; reflexivity | intros _; reflexivity].
  - rewrite Htab. split; [right; reflexivity|].
    intros Hq. exfalso. destruct Hcause as [Hn | [e He]]; [exact (Hn Hq) | discriminate].
Qed.

Lemma createShop_establish_date_witness :
  let shopInfo := ICreateShopInfo.mk "Pear Tree" "Pears" "1" in
  let w := demo [] in
  let r := createShop shopInfo w in
  status (server w) = Idle
  ∧ ∃ row : Row,
      row !! "establishdate" = Some (VDate 20000)
      ∧ row !! "shopname" = Some (VStr "Pear Tree")
      ∧ row !! "description" = Some (VStr "Pears")
      ∧ row !! "owner" = Some (VStr "1")
      ∧ (shops (tables (server r.2)) = shops (tables (server w)) ++ [row]
         ∨ shops (tables (server r.2)) = shops (tables (server w)))
      ∧ (quiet (faults w)
         → shops (tables (server r.2)) = shops (tables (server w)) ++ [row]).
Proof.
  intros shopInfo w r.
  assert (Hidle : status (server w) = Idle) by reflexivity.
  split; [exact Hidle|].
  exact (createShop_establish_date shopInfo w Hidle).
Defined.




(** C9: getUserByEmailAndPassword returns exactly the user rows whose
    stored email is the given email and whose stored password is the given
    password: both are bound as they are received and compared with the
    stored values by plain equality. *)
Theorem getUserByEmailAndPassword_plain_equality (email password : string) (w : World) :
  usable w →
  (getUserByEmailAndPassword email password w).1
  = Resolved
      (List.filter
         (λ r, has_value "email" (VStr email) r && has_value "password" (VStr password) r)
         (users (tables (server w)))).
Proof. apply getUserByEmailAndPassword_rows. Qed.

Lemma getUserByEmailAndPassword_plain_equality_witness :
  usable (demo []) ∧
  (getUserByEmailAndPassword "alice@example.org" "secret" (demo [])).1 = Resolved [alice].
Proof.
  split.
  - split; [reflexivity | discriminate].
  - rewrite (getUserByEmailAndPassword_plain_equality "alice@example.org" "secret" (demo [])).
    + vm_compute. reflexivity.
    + split; [reflexivity | discriminate].
Defined.

(** C8, amended: createProduct and setProductQuantity store the quantity
    they are given, so they keep every product quantity non-negative when
    the quantity they are given is non-negative; the other operations never
    change a product row.  Every operation of the module, called on an idle
    session, preserves the invariant under that condition. *)
Theorem quantity_nonneg_preserved (op : Operation) (w : World) :
  status (server w) = Idle →
  quantities_nonneg (tables (server w)) →
  supplied_quantity_nonneg op →
  quantities_nonneg (tables (server (run op w).2)).
Proof.
  intros Hidle Hinv Hsup. destruct op as [op|rd]; simpl.
  2:{ destruct (read_effect rd w Hidle) as [-> _]. exact Hinv. }
  destruct (write_effect op w Hidle) as (_ & _ & _ & Heff).
  destruct Heff as [(rs & n & d & Hrun & -> & _) | [-> _]]; [|exact Hinv].
  set (clk := clock (server w)) in *. set (seq := sequence (server w)) in *.
  set (d0 := tables (server w)) in *.
  assert (Hsame : products d = products d0 → quantities_nonneg d).
  { intros E r q. rewrite E. apply Hinv. }
  destruct op; simpl in Hsup;
    try (apply Hsame; eapply run_statement_products; [exact Hrun|];
         intros t [= <-]; vm_compute; discriminate).
  - rewrite createProduct_statement in Hrun. injection Hrun as _ _ <-.
    intros r q. simpl. rewrite elem_of_app, list_elem_of_singleton.
    intros [Hr | ->] Hq; [exact (Hinv r q Hr Hq)|].
    rewrite product_row_quantity in Hq. injection Hq as <-. exact Hsup.
  - destruct (setProductQuantity_statement clk seq shopid productid newQuantity d0)
      as [n' Hrun'].
    simpl in Hrun, Hrun'. rewrite Hrun' in Hrun. injection Hrun as _ _ <-.
    intros r q. simpl. rewrite list_elem_of_fmap. intros (r0 & -> & Hr0).
    unfold set_quantity. destruct (is_product shopid productid r0).
    + rewrite lookup_insert_eq. intros [= <-]. exact Hsup.
    + apply Hinv. exact Hr0.
Qed.

Lemma quantity_nonneg_preserved_witness :
  let op := Writing (SetProductQuantity "1" "1" 0) in
  let w := demo [] in
  (status (server w) = Idle
   ∧ quantities_nonneg (tables (server w))
   ∧ supplied_quantity_nonneg op)
  ∧ quantities_nonneg (tables (server (run op w).2)).
Proof.
  intros op w.
  assert (Hidle : status (server w) = Idle) by reflexivity.
  assert (Hinv : quantities_nonneg (tables (server w))).
  { intros r q Hr. apply list_elem_of_singleton in Hr as ->. vm_compute.
    intros [= <-]. discriminate. }
  assert (Hsup : supplied_quantity_nonneg op) by (simpl; lia).
  split; [repeat split; assumption|].
  exact (quantity_nonneg_preserved op w Hidle Hinv Hsup).
Defined.

(** C8 as stated fails: nothing in the module rejects a negative quantity.
    setProductQuantity with -5 leaves the pear with quantity -5, and
    createProduct with quantity -1 inserts a product with quantity -1. *)
Lemma negative_quantity_is_stored :
  quantities_nonneg (tables (server (demo [])))
  ∧ ¬ quantities_nonneg
        (tables (server (run (Writing (SetProductQuantity "1" "1" (-5))) (demo [])).2))
  ∧ ¬ quantities_nonneg
        (tables (server (run (Writing (CreateProduct
                   (ICreateProductInfo.mk "1" 2 "Plum" (-1) "Sour"))) (demo [])).2)).
Proof.
  split; [|split].
  - intros r q Hr. apply list_elem_of_singleton in Hr as ->. vm_compute.
    intros [= <-]. discriminate.
  - intros H.
    assert (0 ≤ -5); [|lia].
    apply (H (<["quantity" := VInt (-5)]> pear)).
    + apply (list_elem_of_lookup_2 _ 0%nat). vm_compute. reflexivity.
    + apply lookup_insert_eq.
  - intros H.
    assert (0 ≤ -1); [|lia].
    apply (H (product_row (mkClock 20000 1728000000) 2
                (ICreateProductInfo.mk "1" 2 "Plum" (-1) "Sour"))).
    + apply (list_elem_of_lookup_2 _ 1%nat). vm_compute. reflexivity.
    + vm_compute. reflexivity.
Qed.

(** C10: updateUserData, called on an idle session, changes no row's
    userid, whatever the input, the tables and the round trips the
    environment rejects.  Position by position the Users rows hold after
    the call the userid they held before it, and so for every column other
    than firstname, lastname, email, dob and password; the other tables are
    left as they were. *)
Theorem updateUserData_keeps_userid (newUserInfo : IUserInfoView.t) (w : World) :
  status (server w) = Idle →
  let r := updateUserData newUserInfo w in
  let before := tables (server w) in
  let after := tables (server r.2) in
  (λ row : Row, row !! "userid") <$> users after
  = (λ row : Row, row !! "userid") <$> users before
  ∧ (∀ c, c ∉ profile_columns →
       (λ row : Row, row !! c) <$> users after = (λ row : Row, row !! c) <$> users before)
  ∧ shops after = shops before
  ∧ sellers after = sellers before
  ∧ products after = products before
  ∧ orders after = orders before.
Proof.
  intros Hidle r before after.
  assert (Hcols : ∀ c, c ∉ profile_columns →
            (λ row : Row, row !! c) <$> users after
            = (λ row : Row, row !! c) <$> users before
            ∧ shops after = shops before ∧ sellers after = sellers before
            ∧ products after = products before ∧ orders after = orders before).
  { intros c Hc.
    destruct (write_effect (UpdateUserData newUserInfo) w Hidle) as (_ & _ & _ & Heff).
    change (tables (server (run_write (UpdateUserData newUserInfo) w).2)) with after in Heff.
    change (tables (server w)) with before in Heff.
    destruct Heff as [(rs & n & d & Hrun & <- & _) | [-> _]]; [|repeat split].
    simpl in Hrun. erewrite run_update in Hrun; [|reflexivity..].
    destruct (update_violation _ _ _); [discriminate|].
    injection Hrun as _ _ <-. simpl. repeat split.
    rewrite <- list_fmap_compose. apply list_fmap_ext. intros _ row _. simpl.
    exact (updateUserData_row (clock (server w)) newUserInfo row c Hc). }
  assert (Hid : "userid" ∉ profile_columns).
  { unfold profile_columns. rewrite !not_elem_of_cons. repeat split; try discriminate.
    apply not_elem_of_nil. }
  split; [apply (Hcols "userid" Hid)|].
  split; [intros c Hc; apply (Hcols c Hc)|].
  apply (Hcols "userid" Hid).
Qed.

Lemma updateUserData_keeps_userid_witness :
  let newUserInfo :=
    IUserInfoView.mk "1" "Alicia" "Martin" "alicia@example.org" "1990-04-01" "s3cret" in
  let w := demo [] in
  let r := updateUserData newUserInfo w in
  let before := tables (server w) in
  let after := tables (server r.2) in
  status (server w) = Idle
  ∧ (λ row : Row, row !! "userid") <$> users after
    = (λ row : Row, row !! "userid") <$> users before
  ∧ (∀ c, c ∉ profile_columns →
       (λ row : Row, row !! c) <$> users after = (λ row : Row, row !! c) <$> users before)
  ∧ shops after = shops before
  ∧ sellers after = sellers before
  ∧ products after = products before
  ∧ orders after = orders before.
Proof.
  intros newUserInfo w r before after.
  assert (Hidle : status (server w) = Idle) by reflexivity.
  split; [exact Hidle|].
  exact (updateUserData_keeps_userid newUserInfo w Hidle).
Defined.

(** * Further lemmas *)

(** ** A writer whose round trips all went well has committed *)

Ltac refute_succeeded H :=
  repeat (apply Forall_cons in H as [? H]); simpl in *; discriminate.

Lemma transaction_commit sh w out w' :
  status (server w) = Idle →
  well_formed sh →
  transaction sh w = (out, w') →
  succeeded (issued w w') →
  let s := server w in
  ∃ rs n d,
    run_statement (clock s) (sequence s) (sh_statement sh) (sh_replacements sh)
      (tables s) = inr (rs, n, d)
    ∧ tables (server w') = d
    ∧ status (server w') = Idle
    ∧ clock (server w') = clock s
    ∧ out = Resolved (sh_value sh rs n)
    ∧ console w' = console w ++ [LogLine (sh_logged sh rs n)].
Proof.
  destruct w as [[d st seq clk] fs wr co]; simpl. intros ->.
  destruct sh as [lock stmt repl ty msg lg val]; unfold well_formed; simpl.
  intros [Hmut Hlock].
  unfold transaction, try_catch, round_trips, mbind, Async_bind, mret, Async_ret,
    sequelize_query, console_error, console_log; simpl.
  destruct stmt; try discriminate; destruct lock as [t|];
    try (destruct (Hlock t eq_refl) as [tb Htb]).
  all: repeat (unfold exec, with_status, with_tables, abandon, fail_block; simpl;
               rewrite ?Htb;
               match goal with
               | |- context [next_fault ?fs] => is_var fs; destruct fs as [|[|] fs]
               | |- context [match run_statement ?a ?b ?c ?d ?e with _ => _ end] =>
                   destruct (run_statement a b c d e) as [?|[[? ?] ?]] eqn:?
               end).
  all: unfold exec, with_status, with_tables, abandon, fail_block; simpl; rewrite ?Htb; simpl.
  all: intros [= <- <-]; unfold succeeded, issued; simpl;
    rewrite <- ?app_assoc, drop_app_length; simpl; intros Hs.
  all: try (exfalso; refute_succeeded Hs).
  all: do 3 eexists; repeat split; reflexivity.
Qed.

Lemma write_commit op w :
  status (server w) = Idle →
  let r := run_write op w in
  succeeded (issued w r.2) →
  let s := server w in
  let sh := shape op in
  ∃ rs n d,
    run_statement (clock s) (sequence s) (sh_statement sh) (sh_replacements sh)
      (tables s) = inr (rs, n, d)
    ∧ tables (server r.2) = d
    ∧ status (server r.2) = Idle
    ∧ clock (server r.2) = clock s
    ∧ r.1 = Resolved (sh_value sh rs n)
    ∧ console r.2 = console w ++ [LogLine (sh_logged sh rs n)].
Proof.
  intros Hidle r Hs s sh. subst r. rewrite run_write_transaction in *.
  destruct (transaction (shape op) w) as [out w'] eqn:E.
  exact (transaction_commit _ _ _ _ Hidle (shape_well_formed op) E Hs).
Qed.

(** ** What each read returns *)



Lemma select_exists_query rel R c alias repl ty w :
  usable w →
  relation_named rel = Some R →
  expr_bound (length repl) c = true →
  sequelize_query (SELECT_EXISTS rel c alias) repl ty w
  = (Resolved
       ([ {[ alias := VBool (existsb (selected (clock (server w)) repl c)
                               (relation_rows R (tables (server w)))) ]} ], 1),
     after_query (SELECT_EXISTS rel c alias) repl ty w).
Proof.
  intros [Hf Hs] HR Hb. unfold sequelize_query, after_query. rewrite Hf.
  destruct w as [[d st seq clk] fs wr co]; simpl in *.
  unfold exec, run_statement; simpl. rewrite Hb, HR; simpl.
  destruct st; simpl; try reflexivity.
  exfalso. eapply Hs. reflexivity.
Qed.

Lemma selected_column clk repl i c v r :
  repl !! i = Some v →
  v ≠ VNull →
  fold_ident c = c →
  selected clk repl (EQ (Column c) (Placeholder i)) r = has_value c v r.
Proof.
  intros Hi Hv Hc. unfold selected, has_value. simpl eval. rewrite Hi, Hc. simpl default.
  apply holds_eq. exact Hv.
Qed.

(** A read that filters relation [R] on one column. *)
Ltac column_read R :=
  intros Hw; unfold fmap, Async_fmap, mbind, Async_bind;
  erewrite select_query; [|exact Hw|reflexivity|reflexivity];
  simpl; f_equal; apply List.filter_ext; intros r;
  apply selected_column; [reflexivity|discriminate|reflexivity].



Lemma getShopsOwnedByUser_rows userid w :
  usable w →
  (getShopsOwnedByUser userid w).1
  = Resolved (List.filter (has_value "ownerid" (VStr userid))
                (view_rows ShopInfoView (tables (server w)))).
Proof. unfold getShopsOwnedByUser. column_read ShopInfoView. Qed.

Lemma getAllProductsOfAShop_rows ShopID w :
  usable w →
  (getAllProductsOfAShop ShopID w).1
  = Resolved (List.filter (has_value "shopid" (VStr ShopID))
                (products (tables (server w)))).
Proof. unfold getAllProductsOfAShop. column_read ProductInfoView. Qed.

Lemma getUsersOrders_rows userid w :
  usable w →
  (getUsersOrders userid w).1
  = Resolved (List.filter (has_value "buyer" (VStr userid)) (orders (tables (server w)))).
Proof. unfold getUsersOrders. column_read OrdersInfoView. Qed.

Lemma getUserInfoByID_rows userid w :
  usable w →
  (getUserInfoByID userid w).1
  = Resolved (List.filter (has_value "userid" (VStr userid)) (users (tables (server w)))).
Proof. unfold getUserInfoByID. column_read UserInfoView. Qed.

Lemma getUserInfoByEmail_rows email w :
  usable w →
  (getUserInfoByEmail email w).1
  = Resolved (List.filter (has_value "email" (VStr email)) (users (tables (server w)))).
Proof. unfold getUserInfoByEmail. column_read UserInfoView. Qed.

Lemma checkIfUserExists_value email w :
  usable w →
  (checkIfUserExists email w).1
  = Resolved (JsColumn (VBool (existsb (has_value "email" (VStr email))
                                 (users (tables (server w)))))).
Proof.
  intros Hw. unfold checkIfUserExists, mbind, Async_bind, fmap, Async_fmap, mbind, Async_bind.
  erewrite select_exists_query; [|exact Hw|reflexivity|reflexivity].
  simpl. rewrite lookup_singleton_eq. simpl. do 3 f_equal.
  clear. induction (users (tables (server w))) as [|r l IH]; [reflexivity|].
  simpl. rewrite IH. f_equal.
  apply (selected_column _ _ 0%nat); [reflexivity|discriminate|reflexivity].
Qed.

(** ** LIKE and letter case *)

Lemma lower_ascii_not_upper a : is_upper (lower_ascii a) = false.
Proof. destruct a as [[] [] [] [] [] [] [] []]; reflexivity. Qed.

Lemma like_percent_inv p s :
  like ("%"%char :: p) s = true → ∃ a t, s = a ++ t ∧ like p t = true.
Proof.
  induction s as [|x s IH]; rewrite like_percent, orb_true_iff.
  - intros [H|H]; [|discriminate]. exists [], []. split; [reflexivity | exact H].
  - intros [H|H]; [exists [], (x :: s); split; [reflexivity | exact H]|].
    destruct (IH H) as (a & t & -> & Ht). exists (x :: a), t. split; [reflexivity | exact Ht].
Qed.

(** An upper-case letter of a pattern is matched by itself only. *)
Lemma like_upper_literal n p s c :
  (length p ≤ n)%nat →
  like p s = true → c ∈ p → is_upper c = true → c ∈ s.
Proof.
  revert p s. induction n as [|n IH]; intros p s Hn Hl Hc Hu.
  { destruct p; [inversion Hc | simpl in Hn; lia]. }
  destruct p as [|c0 p]; [inversion Hc|]. simpl in Hn.
  destruct (Ascii.eqb c0 "%") eqn:E1.
  { apply Ascii.eqb_eq in E1 as ->.
    apply like_percent_inv in Hl as (a & t & -> & Ht).
    apply elem_of_cons in Hc as [->|Hc]; [discriminate|].
    apply elem_of_app. right. apply (IH p t); [lia|assumption..]. }
  destruct (Ascii.eqb c0 "_") eqn:E2.
  { apply Ascii.eqb_eq in E2 as ->. simpl in Hl.
    destruct s as [|x s]; [discriminate|].
    apply elem_of_cons in Hc as [->|Hc]; [discriminate|].
    apply list_elem_of_further. apply (IH p s); [lia|assumption..]. }
  destruct (Ascii.eqb c0 "\") eqn:E3.
  { apply Ascii.eqb_eq in E3 as ->. simpl in Hl.
    apply elem_of_cons in Hc as [->|Hc]; [discriminate|].
    destruct p as [|d p]; [discriminate|]. destruct s as [|x s]; [discriminate|].
    apply andb_true_iff in Hl as [Hd Hl]. apply Ascii.eqb_eq in Hd as ->.
    apply elem_of_cons in Hc as [->|Hc]; [apply list_elem_of_here|].
    apply list_elem_of_further. apply (IH p s); [simpl in Hn; lia|assumption..]. }
  rewrite like_plain in Hl by (unfold plain; rewrite E1, E2, E3; reflexivity).
  destruct s as [|x s]; [discriminate|].
  apply andb_true_iff in Hl as [Hd Hl]. apply Ascii.eqb_eq in Hd as ->.
  apply elem_of_cons in Hc as [->|Hc]; [apply list_elem_of_here|].
  apply list_elem_of_further. apply (IH p s); [lia|assumption..].
Qed.

Lemma matches_like_upper c S r :
  existsb is_upper (chars S) = true → matches_like c S r = false.
Proof.
  intros Hu. unfold matches_like. destruct (r !! c) as [[]|]; try reflexivity.
  apply not_true_is_false. intros Hl.
  apply existsb_exists in Hu as (a & Ha & Hua).
  assert (Hin : a ∈ lower (chars s)).
  { apply (like_upper_literal _ (chars (like_pattern S)) _ a (Nat.le_refl _) Hl);
      [|exact Hua].
    rewrite chars_like_pattern. apply list_elem_of_further, elem_of_app. left.
    apply list_elem_of_In. exact Ha. }
  unfold lower in Hin. apply list_elem_of_fmap in Hin as (b & -> & _).
  rewrite lower_ascii_not_upper in Hua. discriminate.
Qed.

Lemma matches_like_empty c r : matches_like c "" r = is_text c r.
Proof.
  unfold matches_like, is_text. destruct (r !! c) as [[]|]; try reflexivity.
  change (chars (like_pattern "")) with ["%"%char; "%"%char].
  rewrite like_percent, like_any. reflexivity.
Qed.

(** * Further properties of the module *)

(** ** The reads *)

(** X1: checkIfUserExists resolves to a boolean, never to a missing
    property and never with a TypeError on [results[0]], and the boolean is
    true exactly when some user row holds the email. *)
Theorem checkIfUserExists_iff_user_row (email : string) (w : World) :
  usable w →
  ∃ b : bool,
    (checkIfUserExists email w).1 = Resolved (JsColumn (VBool b))
    ∧ (b = true ↔ ∃ r : Row, r ∈ users (tables (server w))
                     ∧ r !! "email" = Some (VStr email)).
Proof.
  intros Hw. eexists. split; [apply checkIfUserExists_value; exact Hw|].
  rewrite existsb_exists. split.
  - intros (r & Hr & Hv). exists r. split; [apply list_elem_of_In; exact Hr|].
    apply bool_decide_eq_true_1 in Hv. exact Hv.
  - intros (r & Hr & Hv). exists r. split; [apply list_elem_of_In; exact Hr|].
    apply has_value_true. exact Hv.
Qed.

Lemma checkIfUserExists_iff_user_row_witness :
  usable (demo [])
  ∧ ∃ b : bool,
      (checkIfUserExists "alice@example.org" (demo [])).1 = Resolved (JsColumn (VBool b))
      ∧ (b = true ↔ ∃ r : Row, r ∈ users (tables (server (demo [])))
                       ∧ r !! "email" = Some (VStr "alice@example.org")).
Proof.
  assert (Hw : usable (demo [])) by (split; [reflexivity | discriminate]).
  split; [exact Hw|].
  exact (checkIfUserExists_iff_user_row "alice@example.org" (demo []) Hw).
Defined.

Lemma existsb_filter {A} (f : A → bool) (l : list A) :
  existsb f l = true ↔ List.filter f l ≠ [].
Proof.
  induction l as [|a l IH]; simpl.
  - split; [discriminate | congruence].
  - destruct (f a); simpl; [split; [discriminate | reflexivity] | exact IH].
Qed.

(** X2: on one database state, checkIfUserExists(email) is true exactly
    when getUserInfoByEmail(email) returns at least one record. *)
Theorem checkIfUserExists_agrees_with_getUserInfoByEmail (email : string) (w : World) :
  usable w →
  ∃ (b : bool) (rs : list Row),
    (checkIfUserExists email w).1 = Resolved (JsColumn (VBool b))
    ∧ (getUserInfoByEmail email w).1 = Resolved rs
    ∧ (b = true ↔ rs ≠ []).
Proof.
  intros Hw. do 2 eexists.
  split; [apply checkIfUserExists_value; exact Hw|].
  split; [apply getUserInfoByEmail_rows; exact Hw|].
  apply existsb_filter.
Qed.

Lemma checkIfUserExists_agrees_with_getUserInfoByEmail_witness :
  usable (demo [])
  ∧ ∃ (b : bool) (rs : list Row),
      (checkIfUserExists "bob@example.org" (demo [])).1 = Resolved (JsColumn (VBool b))
      ∧ (getUserInfoByEmail "bob@example.org" (demo [])).1 = Resolved rs
      ∧ (b = true ↔ rs ≠ []).
Proof.
  assert (Hw : usable (demo [])) by (split; [reflexivity | discriminate]).
  split; [exact Hw|].
  exact (checkIfUserExists_agrees_with_getUserInfoByEmail "bob@example.org" (demo []) Hw).
Defined.

(** X3: a read has no [catch]: when its round trip fails, the call is
    rejected with that very error, and nothing is written to the console. *)
Theorem read_rejection_propagates (rd : ReadOp) (w : World) (x : Sent) (e : DbError) :
  let r := run_read rd w in
  x ∈ issued w r.2 →
  sent_error x = Some e →
  r.1 = Rejected (DatabaseError e) ∧ console r.2 = console w.
Proof.
  destruct rd; simpl;
    unfold getAllShopsInfo, getAllProductsOfAShop, getShopInfo, checkIfUserExists,
      getUserInfoByEmail, getUserInfoByID, getUserByEmailAndPassword,
      getShopsOwnedByUser, getUsersOrders, getProduct, getProductsOfShopLike,
      getShopsLike, fmap, Async_fmap, mbind, Async_bind, mret, Async_ret, console_log,
      throw;
    step_any; facts;
    try match goal with
        | r : (list Row * Z)%type |- _ => destruct r as [[|? ?] ?]
        end;
    unfold issued; simpl;
    match goal with
    | H : wire _ = wire _ ++ _ |- _ => rewrite H, drop_app_length
    end;
    intros Hx He; apply list_elem_of_singleton in Hx as ->; simpl in He;
    try discriminate; injection He as <-; (split; [reflexivity | assumption]).
Qed.

Lemma read_rejection_propagates_witness :
  let w := demo [true] in
  let r := run_read (GetUsersOrders "1") w in
  let x := mkSent (SELECT_FROM "OrdersInfoView" (Some (EQ (Column "buyer") ?0)))
             [VStr "1"] QueryTypes.SELECT (Some ConnectionError) in
  (x ∈ issued w r.2 ∧ sent_error x = Some ConnectionError)
  ∧ r.1 = Rejected (DatabaseError ConnectionError) ∧ console r.2 = console w.
Proof.
  intros w r x.
  assert (Hx : x ∈ issued w r.2) by apply list_elem_of_here.
  assert (He : sent_error x = Some ConnectionError) by reflexivity.
  split; [split; assumption|].
  exact (read_rejection_propagates (GetUsersOrders "1") w x ConnectionError Hx He).
Defined.

(** X4: a read that resolves has written the value it returns to the
    console, once, and nothing else: getUserByEmailAndPassword, for one,
    logs the matching user rows, password column included. *)
Theorem read_logs_what_it_returns (rd : ReadOp) (w : World) (v : JsValue) :
  let r := run_read rd w in
  r.1 = Resolved v →
  console r.2 = console w ++ [LogLine [v]].
Proof.
  destruct rd; simpl;
    unfold getAllShopsInfo, getAllProductsOfAShop, getShopInfo, checkIfUserExists,
      getUserInfoByEmail, getUserInfoByID, getUserByEmailAndPassword,
      getShopsOwnedByUser, getUsersOrders, getProduct, getProductsOfShopLike,
      getShopsLike, fmap, Async_fmap, mbind, Async_bind, mret, Async_ret, console_log,
      throw;
    step_any; facts;
    try match goal with
        | r : (list Row * Z)%type |- _ => destruct r as [[|? ?] ?]
        end;
    simpl; try discriminate; intros [= <-]; congruence.
Qed.

Lemma read_logs_what_it_returns_witness :
  let w := demo [] in
  let r := run_read (GetUserByEmailAndPassword "alice@example.org" "secret") w in
  r.1 = Resolved (JsArray [alice])
  ∧ console r.2 = console w ++ [LogLine [JsArray [alice]]].
Proof.
  intros w r.
  assert (H : r.1 = Resolved (JsArray [alice])) by (vm_compute; reflexivity).
  split; [exact H|].
  exact (read_logs_what_it_returns _ w _ H).
Defined.






(** X7: the empty search string matches every name: getShopsLike("")
    returns every shop whose shopname is a text, and
    getProductsOfShopLike(shopid, "") every product of the shop whose name
    is one. *)
Theorem empty_search_returns_every_named_row (w : World) :
  usable w →
  (getShopsLike "" w).1
  = Resolved (List.filter (is_text "shopname")
                (view_rows ShopInfoView (tables (server w))))
  ∧ ∀ shopid,
      (getProductsOfShopLike shopid "" w).1
      = Resolved (List.filter
                    (λ r, has_value "shopid" (VStr shopid) r && is_text "name" r)
                    (view_rows ProductInfoView (tables (server w)))).
Proof.
  intros Hw. split; [|intros shopid].
  - rewrite getShopsLike_rows by exact Hw. f_equal.
    apply List.filter_ext. intros r. apply matches_like_empty.
  - rewrite getProductsOfShopLike_rows by exact Hw. f_equal.
    apply List.filter_ext. intros r. rewrite matches_like_empty. reflexivity.
Qed.

Lemma empty_search_returns_every_named_row_witness :
  usable (market [])
  ∧ (getShopsLike "" (market [])).1
    = Resolved (List.filter (is_text "shopname")
                  (view_rows ShopInfoView (tables (server (market [])))))
  ∧ ∀ shopid,
      (getProductsOfShopLike shopid "" (market [])).1
      = Resolved (List.filter
                    (λ r, has_value "shopid" (VStr shopid) r && is_text "name" r)
                    (view_rows ProductInfoView (tables (server (market []))))).
Proof.
  assert (Hw : usable (market [])) by (split; [reflexivity | discriminate]).
  split; [exact Hw|].
  exact (empty_search_returns_every_named_row (market []) Hw).
Defined.

(** X8: a search string with an upper-case letter (A to Z) finds nothing:
    the pattern is compared as it is with the lower-cased name. *)
Theorem upper_case_search_finds_nothing (searchStr : string) (w : World) :
  existsb is_upper (chars searchStr) = true →
  usable w →
  (getShopsLike searchStr w).1 = Resolved []
  ∧ ∀ shopid, (getProductsOfShopLike shopid searchStr w).1 = Resolved [].
Proof.
  intros Hu Hw. split; [|intros shopid].
  - rewrite getShopsLike_rows by exact Hw. f_equal.
    apply filter_none. intros r _. apply matches_like_upper. exact Hu.
  - rewrite getProductsOfShopLike_rows by exact Hw. f_equal.
    apply filter_none. intros r _. rewrite matches_like_upper by exact Hu.
    apply andb_false_r.
Qed.

Lemma upper_case_search_finds_nothing_witness :
  (existsb is_upper (chars "Bakery") = true ∧ usable (market []))
  ∧ (getShopsLike "Bakery" (market [])).1 = Resolved []
  ∧ ∀ shopid, (getProductsOfShopLike shopid "Bakery" (market [])).1 = Resolved [].
Proof.
  assert (Hu : existsb is_upper (chars "Bakery") = true) by reflexivity.
  assert (Hw : usable (market [])) by (split; [reflexivity | discriminate]).
  split; [split; assumption|].
  exact (upper_case_search_finds_nothing "Bakery" (market []) Hu Hw).
Defined.

(** ** The writers *)

Lemma rows_of_set_rows_ne t tb rs d : t ≠ tb → rows_of t (set_rows tb rs d) = rows_of t d.
Proof. intros H. destruct t, tb; try reflexivity; congruence. Qed.

Lemma rows_of_set_rows tb rs d : rows_of tb (set_rows tb rs d) = rs.
Proof. destruct tb; reflexivity. Qed.

(** A statement changes the rows of the table it names, and of no other. *)
Lemma run_statement_frame clk seq q repl d rs n d' tb t :
  run_statement clk seq q repl d = inr (rs, n, d') →
  (∀ name, target q = Some name → table_named name = Some tb) →
  t ≠ tb →
  rows_of t d' = rows_of t d.
Proof.
  unfold run_statement. destruct (sql_bound (length repl) q); [|discriminate]. simpl.
  destruct q; simpl; intros H Ht Hne; try (injection H as _ _ <-; reflexivity).
  - rewrite (Ht table eq_refl) in H.
    destruct (negb (length columns =? length values)%nat); [discriminate|].
    destruct (insert_violation tb d _); [discriminate|].
    injection H as _ _ <-. apply rows_of_set_rows_ne. exact Hne.
  - rewrite (Ht table eq_refl) in H.
    destruct (update_violation tb _ _); [discriminate|].
    injection H as _ _ <-. apply rows_of_set_rows_ne. exact Hne.
  - destruct (relation_named relation); [|discriminate]. injection H as _ _ <-. reflexivity.
  - destruct (relation_named relation); [|discriminate]. injection H as _ _ <-. reflexivity.
Qed.

Lemma written_table_named op name :
  target (sh_statement (shape op)) = Some name →
  table_named name = Some (written_table op).
Proof. destruct op; intros [= <-]; vm_compute; reflexivity. Qed.

Lemma write_frame op w t :
  status (server w) = Idle →
  t ≠ written_table op →
  rows_of t (tables (server (run_write op w).2)) = rows_of t (tables (server w)).
Proof.
  intros Hidle Hne.
  destruct (write_effect op w Hidle) as (_ & _ & _ & Heff).
  destruct Heff as [(rs & n & d & Hrun & -> & _) | [-> _]]; [|reflexivity].
  eapply run_statement_frame; [exact Hrun | apply written_table_named | exact Hne].
Qed.

(** X9: a writer changes at most the one table its statement names: every
    other table holds after the call, whatever the environment rejects, the
    rows it held before. *)
Theorem writer_changes_only_its_table (op : WriteOp) (w : World) (t : Table) :
  status (server w) = Idle →
  t ≠ written_table op →
  rows_of t (tables (server (run_write op w).2)) = rows_of t (tables (server w)).
Proof. apply write_frame. Qed.

Lemma writer_changes_only_its_table_witness :
  let op := CreateOrder (ICreateOrderInfo.mk "1" "1" "1" 3) in
  (status (server (market [])) = Idle ∧ Products ≠ written_table op)
  ∧ rows_of Products (tables (server (run_write op (market [])).2))
    = rows_of Products (tables (server (market []))).
Proof.
  intros op.
  assert (Hidle : status (server (market [])) = Idle) by reflexivity.
  assert (Hne : Products ≠ written_table op) by discriminate.
  split; [split; assumption|].
  exact (writer_changes_only_its_table op (market []) Products Hidle Hne).
Defined.

(** The tables after a writer built on INSERT whose round trips all went
    well. *)
Lemma committed_insert op w t tb cols vals :
  status (server w) = Idle →
  succeeded (issued w (run_write op w).2) →
  sh_statement (shape op) = INSERT_INTO t cols vals →
  table_named t = Some tb →
  forallb (expr_bound (length (sh_replacements (shape op)))) vals = true →
  length cols = length vals →
  let s := server w in
  tables (server (run_write op w).2)
  = set_rows tb
      (rows_of tb (tables s)
       ++ [new_row (clock s) (sh_replacements (shape op)) (sequence s) tb cols vals])
      (tables s).
Proof.
  intros Hidle Hs Hq Ht Hb Hl s.
  destruct (write_commit op w Hidle Hs) as (rs & n & d & Hrun & <- & _).
  rewrite Hq in Hrun. rewrite (run_insert _ _ _ tb) in Hrun by assumption.
  destruct (insert_violation tb _ _); [discriminate|].
  injection Hrun as _ _ <-. reflexivity.
Qed.

(** The tables after a writer built on UPDATE whose round trips all went
    well. *)
Lemma committed_update op w t tb sets c :
  status (server w) = Idle →
  succeeded (issued w (run_write op w).2) →
  sh_statement (shape op) = UPDATE t sets c →
  table_named t = Some tb →
  sql_bound (length (sh_replacements (shape op))) (UPDATE t sets c) = true →
  let s := server w in
  tables (server (run_write op w).2)
  = set_rows tb
      (update_row (clock s) (sh_replacements (shape op)) sets c <$> rows_of tb (tables s))
      (tables s).
Proof.
  intros Hidle Hs Hq Ht Hb s.
  destruct (write_commit op w Hidle Hs) as (rs & n & d & Hrun & <- & _).
  rewrite Hq in Hrun. rewrite (run_update _ _ _ tb) in Hrun by assumption.
  destruct (update_violation tb _ _); [discriminate|].
  injection Hrun as _ _ <-. reflexivity.
Qed.

Lemma usable_idle w :
  status (server w) = Idle → next_fault (faults w) = false → usable w.
Proof. intros Hs Hf. split; [exact Hf|]. intros saved. rewrite Hs. discriminate. Qed.

Lemma write_commit_idle op w :
  status (server w) = Idle →
  succeeded (issued w (run_write op w).2) →
  status (server (run_write op w).2) = Idle.
Proof. intros Hidle Hs. destruct (write_commit op w Hidle Hs) as (? & ? & ? & ? & ? & ? & ?). assumption. Qed.

Lemma order_row_columns clk seq createOrderInfo :
  order_row clk seq createOrderInfo
  = {[ "orderid" := VStr (pretty seq);
       "buyer" := VStr (ICreateOrderInfo.userid createOrderInfo);
       "shop" := VStr (ICreateOrderInfo.shopid createOrderInfo);
       "product" := VStr (ICreateOrderInfo.productid createOrderInfo);
       "quantity" := VInt (ICreateOrderInfo.quantity createOrderInfo);
       "ordertime" := VTime (now clk) ]}.
Proof. vm_compute. reflexivity. Qed.

(** The writers built on INSERT either append the row they build or leave
    their table as it was. *)
Lemma insert_effect op w t tb cols vals :
  status (server w) = Idle →
  sh_statement (shape op) = INSERT_INTO t cols vals →
  table_named t = Some tb →
  forallb (expr_bound (length (sh_replacements (shape op)))) vals = true →
  length cols = length vals →
  let s := server w in
  let row := new_row (clock s) (sh_replacements (shape op)) (sequence s) tb cols vals in
  let before := rows_of tb (tables s) in
  let after := rows_of tb (tables (server (run_write op w).2)) in
  (after = before ++ [row] ∨ after = before)
  ∧ (succeeded (issued w (run_write op w).2) → after = before ++ [row]).
Proof.
  intros Hidle Hq Ht Hb Hl s row before after. split.
  - destruct (write_effect op w Hidle) as (_ & _ & _ & Heff).
    destruct Heff as [(rs & n & d & Hrun & Htab & _) | [Htab _]].
    + left. subst after. rewrite Htab. rewrite Hq in Hrun.
      rewrite (run_insert _ _ _ tb) in Hrun by assumption.
      destruct (insert_violation tb _ _); [discriminate|].
      injection Hrun as _ _ <-. apply rows_of_set_rows.
    + right. subst after. rewrite Htab. reflexivity.
  - intros Hs. subst after.
    rewrite (committed_insert op w t tb cols vals Hidle Hs Hq Ht Hb Hl).
    apply rows_of_set_rows.
Qed.

(** X10: createOrder appends at most one order row: its buyer, shop,
    product and quantity are those passed, its order time the engine's
    CURRENT_TIMESTAMP; the row is appended when every round trip went well.
    The products are left as they were: the quantity ordered is not taken
    off the product's quantity. *)
Theorem createOrder_appends_one_order (createOrderInfo : ICreateOrderInfo.t) (w : World) :
  status (server w) = Idle →
  let r := createOrder createOrderInfo w in
  let before := tables (server w) in
  let after := tables (server r.2) in
  ∃ row : Row,
    row !! "buyer" = Some (VStr (ICreateOrderInfo.userid createOrderInfo))
    ∧ row !! "shop" = Some (VStr (ICreateOrderInfo.shopid createOrderInfo))
    ∧ row !! "product" = Some (VStr (ICreateOrderInfo.productid createOrderInfo))
    ∧ row !! "quantity" = Some (VInt (ICreateOrderInfo.quantity createOrderInfo))
    ∧ row !! "ordertime" = Some (VTime (now (clock (server w))))
    ∧ (orders after = orders before ++ [row] ∨ orders after = orders before)
    ∧ (succeeded (issued w r.2) → orders after = orders before ++ [row])
    ∧ products after = products before.
Proof.
  intros Hidle r before after.
  exists (order_row (clock (server w)) (sequence (server w)) createOrderInfo).
  rewrite order_row_columns.
  do 5 (split; [vm_compute; reflexivity|]).
  rewrite <- order_row_columns.
  destruct (insert_effect (CreateOrder createOrderInfo) w "Orders" Orders
              ["Buyer"; "Shop"; "Product"; "Quantity"; "OrderTime"]
              [?0; ?1; ?2; ?3; CURRENT_TIMESTAMP] Hidle eq_refl eq_refl eq_refl eq_refl)
    as [H1 H2].
  split; [exact H1|]. split; [exact H2|].
  apply (write_frame (CreateOrder createOrderInfo) w Products Hidle). discriminate.
Qed.

Lemma createOrder_appends_one_order_witness :
  let createOrderInfo := ICreateOrderInfo.mk "1" "1" "1" 3 in
  let w := market [] in
  let r := createOrder createOrderInfo w in
  let before := tables (server w) in
  let after := tables (server r.2) in
  status (server w) = Idle
  ∧ ∃ row : Row,
      row !! "buyer" = Some (VStr "1")
      ∧ row !! "shop" = Some (VStr "1")
      ∧ row !! "product" = Some (VStr "1")
      ∧ row !! "quantity" = Some (VInt 3)
      ∧ row !! "ordertime" = Some (VTime 1728000000)
      ∧ (orders after = orders before ++ [row] ∨ orders after = orders before)
      ∧ (succeeded (issued w r.2) → orders after = orders before ++ [row])
      ∧ products after = products before.
Proof.
  intros createOrderInfo w r before after.
  assert (Hidle : status (server w) = Idle) by reflexivity.
  split; [exact Hidle|].
  exact (createOrder_appends_one_order createOrderInfo w Hidle).
Defined.

(** X11: after a createOrder whose round trips all went well,
    getUsersOrders for the buyer returns the orders the buyer had, in
    order, followed by the new one. *)
Theorem createOrder_then_getUsersOrders (createOrderInfo : ICreateOrderInfo.t) (w : World) :
  status (server w) = Idle →
  let r := createOrder createOrderInfo w in
  succeeded (issued w r.2) →
  next_fault (faults r.2) = false →
  (getUsersOrders (ICreateOrderInfo.userid createOrderInfo) r.2).1
  = Resolved
      (List.filter (has_value "buyer" (VStr (ICreateOrderInfo.userid createOrderInfo)))
         (orders (tables (server w)))
       ++ [order_row (clock (server w)) (sequence (server w)) createOrderInfo]).
Proof.
  intros Hidle r Hs Hf.
  rewrite getUsersOrders_rows
    by (apply usable_idle; [apply (write_commit_idle (CreateOrder createOrderInfo)) |];
        assumption).
  unfold r, createOrder.
  change (tables (server (try_catch _ _ w).2))
    with (tables (server (run_write (CreateOrder createOrderInfo) w).2)).
  erewrite committed_insert; [|exact Hidle|exact Hs|reflexivity..].
  simpl. rewrite List.filter_app. simpl.
  fold (order_row (clock (server w)) (sequence (server w)) createOrderInfo).
  rewrite has_value_true; [reflexivity|].
  rewrite order_row_columns. vm_compute. reflexivity.
Qed.

Lemma createOrder_then_getUsersOrders_witness :
  let createOrderInfo := ICreateOrderInfo.mk "1" "1" "2" 3 in
  let w := market [] in
  let r := createOrder createOrderInfo w in
  (status (server w) = Idle
   ∧ succeeded (issued w r.2)
   ∧ next_fault (faults r.2) = false)
  ∧ (getUsersOrders "1" r.2).1
    = Resolved
        (List.filter (has_value "buyer" (VStr "1")) (orders (tables (server w)))
         ++ [order_row (clock (server w)) (sequence (server w)) createOrderInfo]).
Proof.
  intros createOrderInfo w r.
  assert (Hidle : status (server w) = Idle) by reflexivity.
  assert (Hs : succeeded (issued w r.2)) by (repeat constructor).
  assert (Hf : next_fault (faults r.2) = false) by reflexivity.
  split; [repeat split; assumption|].
  exact (createOrder_then_getUsersOrders createOrderInfo w Hidle Hs Hf).
Defined.

(** X12: after a createProduct whose round trips all went well,
    getAllProductsOfAShop for the product's shop returns the products the
    shop had, in order, followed by a record with the shop, price, name,
    quantity and description that were passed. *)
Theorem createProduct_then_getAllProductsOfAShop
    (productInfo : ICreateProductInfo.t) (w : World) :
  status (server w) = Idle →
  let r := createProduct productInfo w in
  succeeded (issued w r.2) →
  next_fault (faults r.2) = false →
  ∃ row : Row,
    (getAllProductsOfAShop (ICreateProductInfo.shopid productInfo) r.2).1
    = Resolved
        (List.filter (has_value "shopid" (VStr (ICreateProductInfo.shopid productInfo)))
           (products (tables (server w)))
         ++ [row])
    ∧ row !! "shopid" = Some (VStr (ICreateProductInfo.shopid productInfo))
    ∧ row !! "price" = Some (VInt (ICreateProductInfo.price productInfo))
    ∧ row !! "name" = Some (VStr (ICreateProductInfo.name productInfo))
    ∧ row !! "quantity" = Some (VInt (ICreateProductInfo.quantity productInfo))
    ∧ row !! "description" = Some (VStr (ICreateProductInfo.description productInfo)).
Proof.
  intros Hidle r Hs Hf.
  exists (product_row (clock (server w)) (sequence (server w)) productInfo).
  split; [|repeat split; vm_compute; reflexivity].
  rewrite getAllProductsOfAShop_rows
    by (apply usable_idle; [apply (write_commit_idle (CreateProduct productInfo)) |];
        assumption).
  unfold r, createProduct.
  change (tables (server (try_catch _ _ w).2))
    with (tables (server (run_write (CreateProduct productInfo) w).2)).
  erewrite committed_insert; [|exact Hidle|exact Hs|reflexivity..].
  simpl. rewrite List.filter_app. simpl.
  fold (product_row (clock (server w)) (sequence (server w)) productInfo).
  rewrite has_value_true; [reflexivity|]. vm_compute. reflexivity.
Qed.

Lemma createProduct_then_getAllProductsOfAShop_witness :
  let productInfo := ICreateProductInfo.mk "1" 5 "Quince" 12 "Tart" in
  let w := market [] in
  let r := createProduct productInfo w in
  (status (server w) = Idle
   ∧ succeeded (issued w r.2)
   ∧ next_fault (faults r.2) = false)
  ∧ ∃ row : Row,
      (getAllProductsOfAShop "1" r.2).1
      = Resolved
          (List.filter (has_value "shopid" (VStr "1")) (products (tables (server w)))
           ++ [row])
      ∧ row !! "shopid" = Some (VStr "1")
      ∧ row !! "price" = Some (VInt 5)
      ∧ row !! "name" = Some (VStr "Quince")
      ∧ row !! "quantity" = Some (VInt 12)
      ∧ row !! "description" = Some (VStr "Tart").
Proof.
  intros productInfo w r.
  assert (Hidle : status (server w) = Idle) by reflexivity.
  assert (Hs : succeeded (issued w r.2)) by (repeat constructor).
  assert (Hf : next_fault (faults r.2) = false) by reflexivity.
  split; [repeat split; assumption|].
  exact (createProduct_then_getAllProductsOfAShop productInfo w Hidle Hs Hf).
Defined.

Lemma shop_view_row clk seq shopInfo :
  rename_column "owner" "ownerid" (shop_row clk seq shopInfo)
  = {[ "shopid" := VStr (pretty seq);
       "shopname" := VStr (ICreateShopInfo.shopname shopInfo);
       "establishdate" := VDate (today clk);
       "description" := VStr (ICreateShopInfo.description shopInfo);
       "ownerid" := VStr (ICreateShopInfo.ownerid shopInfo) ]}.
Proof. vm_compute. reflexivity. Qed.

(** X13: after a createShop whose round trips all went well,
    getShopsOwnedByUser for the owner returns the shops the owner had, in
    order, followed by a record with the name, description and owner that
    were passed and the engine's current date as establish date. *)
Theorem createShop_then_getShopsOwnedByUser (shopInfo : ICreateShopInfo.t) (w : World) :
  status (server w) = Idle →
  let r := createShop shopInfo w in
  succeeded (issued w r.2) →
  next_fault (faults r.2) = false →
  ∃ row : Row,
    (getShopsOwnedByUser (ICreateShopInfo.ownerid shopInfo) r.2).1
    = Resolved
        (List.filter (has_value "ownerid" (VStr (ICreateShopInfo.ownerid shopInfo)))
           (view_rows ShopInfoView (tables (server w)))
         ++ [row])
    ∧ row !! "shopname" = Some (VStr (ICreateShopInfo.shopname shopInfo))
    ∧ row !! "description" = Some (VStr (ICreateShopInfo.description shopInfo))
    ∧ row !! "ownerid" = Some (VStr (ICreateShopInfo.ownerid shopInfo))
    ∧ row !! "establishdate" = Some (VDate (today (clock (server w)))).
Proof.
  intros Hidle r Hs Hf.
  exists (rename_column "owner" "ownerid"
            (shop_row (clock (server w)) (sequence (server w)) shopInfo)).
  split; [|rewrite shop_view_row; repeat split; vm_compute; reflexivity].
  rewrite getShopsOwnedByUser_rows
    by (apply usable_idle; [apply (write_commit_idle (CreateShop shopInfo)) |];
        assumption).
  unfold r, createShop.
  change (tables (server (try_catch _ _ w).2))
    with (tables (server (run_write (CreateShop shopInfo) w).2)).
  erewrite committed_insert; [|exact Hidle|exact Hs|reflexivity..].
  simpl. rewrite map_app, List.filter_app. simpl.
  fold (shop_row (clock (server w)) (sequence (server w)) shopInfo).
  rewrite has_value_true; [reflexivity|].
  rewrite shop_view_row. vm_compute. reflexivity.
Qed.

Lemma createShop_then_getShopsOwnedByUser_witness :
  let shopInfo := ICreateShopInfo.mk "Cider House" "Cider" "1" in
  let w := market [] in
  let r := createShop shopInfo w in
  (status (server w) = Idle
   ∧ succeeded (issued w r.2)
   ∧ next_fault (faults r.2) = false)
  ∧ ∃ row : Row,
      (getShopsOwnedByUser "1" r.2).1
      = Resolved
          (List.filter (has_value "ownerid" (VStr "1"))
             (view_rows ShopInfoView (tables (server w)))
           ++ [row])
      ∧ row !! "shopname" = Some (VStr "Cider House")
      ∧ row !! "description" = Some (VStr "Cider")
      ∧ row !! "ownerid" = Some (VStr "1")
      ∧ row !! "establishdate" = Some (VDate 20000).
Proof.
  intros shopInfo w r.
  assert (Hidle : status (server w) = Idle) by reflexivity.
  assert (Hs : succeeded (issued w r.2)) by (repeat constructor).
  assert (Hf : next_fault (faults r.2) = false) by reflexivity.
  split; [repeat split; assumption|].
  exact (createShop_then_getShopsOwnedByUser shopInfo w Hidle Hs Hf).
Defined.

(** X14: makeSeller appends at most one row to Sellers, the row whose
    sellerid is the user id passed, and appends it when every round trip
    went well; it changes no user row. *)
Theorem makeSeller_appends_seller (userID : string) (w : World) :
  status (server w) = Idle →
  let r := makeSeller userID w in
  let before := tables (server w) in
  let after := tables (server r.2) in
  (sellers after = sellers before ++ [seller_row userID]
   ∨ sellers after = sellers before)
  ∧ (succeeded (issued w r.2) → sellers after = sellers before ++ [seller_row userID])
  ∧ users after = users before.
Proof.
  intros Hidle r before after.
  destruct (insert_effect (MakeSeller userID) w "Sellers" Sellers ["sellerid"] [?0]
              Hidle eq_refl eq_refl eq_refl eq_refl) as [H1 H2].
  split; [exact H1|]. split; [exact H2|].
  apply (write_frame (MakeSeller userID) w Users Hidle). discriminate.
Qed.

Lemma makeSeller_appends_seller_witness :
  let w := market [] in
  let r := makeSeller "7" w in
  status (server w) = Idle
  ∧ (sellers (tables (server r.2)) = sellers (tables (server w)) ++ [seller_row "7"]
     ∨ sellers (tables (server r.2)) = sellers (tables (server w)))
  ∧ (succeeded (issued w r.2)
     → sellers (tables (server r.2)) = sellers (tables (server w)) ++ [seller_row "7"])
  ∧ users (tables (server r.2)) = users (tables (server w)).
Proof.
  intros w r.
  assert (Hidle : status (server w) = Idle) by reflexivity.
  split; [exact Hidle|].
  exact (makeSeller_appends_seller "7" w Hidle).
Defined.

(** ** setProductQuantity *)

Lemma update_row_set_quantity clk shopid productid N r :
  update_row clk [VInt N; VStr shopid; VStr productid] [("quantity", ?0)]
    (AND (EQ (Column "shopid") ?1) (EQ (Column "productid") ?2)) r
  = set_quantity shopid productid N r.
Proof.
  unfold update_row, set_quantity.
  rewrite (selected_product _ _ 1 2 shopid productid) by reflexivity.
  reflexivity.
Qed.

Lemma set_rows_same tb d : set_rows tb (rows_of tb d) d = d.
Proof. destruct tb, d; reflexivity. Qed.

Lemma fmap_unchanged {A} (f : A → A) (l : list A) :
  (∀ x, x ∈ l → f x = x) → f <$> l = l.
Proof.
  induction l as [|a l IH]; intros H; [reflexivity|].
  rewrite fmap_cons, (H a) by apply list_elem_of_here.
  f_equal. apply IH. intros x Hx. apply H, list_elem_of_further, Hx.
Qed.

(** What setProductQuantity does to the products of an idle session. *)
Lemma setProductQuantity_effect shopid productid N w :
  status (server w) = Idle →
  let r := setProductQuantity shopid productid N w in
  let before := tables (server w) in
  let after := tables (server r.2) in
  (after = before
   ∨ after = set_rows Products (set_quantity shopid productid N <$> products before) before)
  ∧ (succeeded (issued w r.2) →
     after = set_rows Products (set_quantity shopid productid N <$> products before) before)
  ∧ (quiet (faults w) → succeeded (issued w r.2)).
Proof.
  intros Hidle r before after.
  pose (op := SetProductQuantity shopid productid N).
  destruct (setProductQuantity_statement (clock (server w)) (sequence (server w))
              shopid productid N before) as [n Hstmt]. simpl in Hstmt.
  split; [|split].
  - destruct (write_effect op w Hidle) as (_ & _ & _ & Heff). simpl in Heff.
    fold before in Heff. rewrite Hstmt in Heff.
    destruct Heff as [(rs & n' & d & [= <- <- <-] & Htab & _) | [Htab _]].
    + right. exact Htab.
    + left. exact Htab.
  - intros Hs. destruct (write_commit op w Hidle Hs) as (rs & n' & d & Hrun & Htab & _).
    simpl in Hrun. fold before in Hrun. rewrite Hstmt in Hrun.
    injection Hrun as _ _ <-. exact Htab.
  - intros Hq. destruct (write_effect op w Hidle) as (_ & _ & _ & Heff). simpl in Heff.
    fold before in Heff. rewrite Hstmt in Heff.
    destruct Heff as [(rs & n' & d & _ & _ & _ & Hwire) | [_ [Hn | [e He]]]];
      [|exfalso; exact (Hn Hq)|discriminate].
    apply issued_app in Hwire. unfold succeeded, r. rewrite Hwire.
    repeat constructor.
Qed.





Lemma set_quantity_twice shopid productid N M r :
  set_quantity shopid productid M (set_quantity shopid productid N r)
  = set_quantity shopid productid M r.
Proof.
  unfold set_quantity. destruct (is_product shopid productid r) eqn:E.
  - rewrite is_product_set_quantity, E. apply insert_insert_eq.
  - rewrite E. reflexivity.
Qed.

(** X17: two calls of setProductQuantity for one product, one after the
    other and both with every round trip going well, leave the tables the
    second call alone would: the last quantity set is the one stored. *)
Theorem setProductQuantity_last_wins (shopid productid : string) (N M : Z) (w : World) :
  status (server w) = Idle →
  let r1 := setProductQuantity shopid productid N w in
  let r2 := setProductQuantity shopid productid M r1.2 in
  succeeded (issued w r1.2) →
  succeeded (issued r1.2 r2.2) →
  tables (server r2.2)
  = set_rows Products
      (set_quantity shopid productid M <$> products (tables (server w)))
      (tables (server w)).
Proof.
  intros Hidle r1 r2 Hs1 Hs2.
  assert (Hidle1 : status (server r1.2) = Idle)
    by exact (write_commit_idle (SetProductQuantity shopid productid N) w Hidle Hs1).
  destruct (setProductQuantity_effect shopid productid M r1.2 Hidle1) as (_ & H2 & _).
  destruct (setProductQuantity_effect shopid productid N w Hidle) as (_ & H1 & _).
  fold r1 in H1. fold r2 in H2. rewrite (H2 Hs2), (H1 Hs1). simpl.
  rewrite <- list_fmap_compose. f_equal.
  apply list_fmap_ext. intros _ r _. apply set_quantity_twice.
Qed.

Lemma setProductQuantity_last_wins_witness :
  let w := market [] in
  let r1 := setProductQuantity "1" "2" 10 w in
  let r2 := setProductQuantity "1" "2" 20 r1.2 in
  (status (server w) = Idle
   ∧ succeeded (issued w r1.2)
   ∧ succeeded (issued r1.2 r2.2))
  ∧ tables (server r2.2)
    = set_rows Products
        (set_quantity "1" "2" 20 <$> products (tables (server w)))
        (tables (server w)).
Proof.
  intros w r1 r2.
  assert (Hidle : status (server w) = Idle) by reflexivity.
  assert (Hs1 : succeeded (issued w r1.2)) by (repeat constructor).
  assert (Hs2 : succeeded (issued r1.2 r2.2)) by (repeat constructor).
  split; [repeat split; assumption|].
  exact (setProductQuantity_last_wins "1" "2" 10 20 w Hidle Hs1 Hs2).
Defined.

(** ** updateUserData *)

Lemma update_row_set_profile clk newUserInfo r :
  let sh := shape (UpdateUserData newUserInfo) in
  match sh_statement sh with
  | UPDATE _ sets cond =>
      update_row clk (sh_replacements sh) sets cond r
      = if has_value "userid" (VStr (IUserInfoView.userid newUserInfo)) r
        then set_profile newUserInfo r else r
  | _ => True
  end.
Proof.
  simpl. unfold update_row.
  rewrite (selected_column _ _ 6%nat "userid" (VStr (IUserInfoView.userid newUserInfo)))
    by (reflexivity || discriminate).
  destruct (has_value _ _ r); reflexivity.
Qed.

Lemma forallb_diag {A} (f : A * A → bool) (l : list A) :
  (∀ a, f (a, a) = true) → forallb f (zip l l) = true.
Proof.
  intros Hf. induction l as [|a l IH]; [reflexivity|]. simpl. rewrite Hf. exact IH.
Qed.

Lemma update_violation_same t l : update_violation t l l = None.
Proof.
  destruct t; try reflexivity. simpl.
  rewrite forallb_diag; [reflexivity|].
  intros a. simpl. rewrite bool_decide_eq_true_2 by reflexivity. reflexivity.
Qed.

Lemma filter_selected_update {A} (m : A → bool) (g : A → A) (l : list A) :
  (∀ x, m x = true → m (g x) = true) →
  List.filter m ((λ x, if m x then g x else x) <$> l) = g <$> List.filter m l.
Proof.
  intros Hg. induction l as [|a l IH]; [reflexivity|].
  rewrite fmap_cons. simpl. destruct (m a) eqn:Ha.
  - rewrite (Hg a Ha), fmap_cons, IH. reflexivity.
  - rewrite Ha. exact IH.
Qed.

Lemma updateUserData_statement clk seq newUserInfo d :
  let sh := shape (UpdateUserData newUserInfo) in
  run_statement clk seq (sh_statement sh) (sh_replacements sh) d
  = match update_violation Users (users d) (users (updated_users newUserInfo d)) with
    | Some e => inl e
    | None =>
        inr ([], Z.of_nat (length (List.filter
                                     (has_value "userid"
                                        (VStr (IUserInfoView.userid newUserInfo)))
                                     (users d))),
             updated_users newUserInfo d)
    end.
Proof.
  simpl. erewrite run_update; [|reflexivity..]. simpl.
  assert (E : ∀ l : list Row,
             update_row clk (sh_replacements (shape (UpdateUserData newUserInfo)))
               [("userid", ?0); ("firstname", ?1); ("lastname", ?2);
                ("email", ?3); ("dob", ?4); ("password", ?5)]
               (EQ (Column "userid") ?6) <$> l
             = (λ r, if has_value "userid" (VStr (IUserInfoView.userid newUserInfo)) r
                     then set_profile newUserInfo r else r) <$> l).
  { intros l. apply list_fmap_ext. intros _ r _.
    exact (update_row_set_profile clk newUserInfo r). }
  simpl in E. rewrite E.
  erewrite List.filter_ext;
    [|intros r; apply (selected_column _ _ 6%nat "userid"
                         (VStr (IUserInfoView.userid newUserInfo)));
      reflexivity || discriminate].
  reflexivity.
Qed.

(** X18: after an updateUserData whose round trips all went well,
    getUserInfoByID for the user id of the new record returns the user rows
    that held that id, each with the first name, last name, email, date of
    birth and password of the new record. *)
Theorem updateUserData_then_getUserInfoByID (newUserInfo : IUserInfoView.t) (w : World) :
  status (server w) = Idle →
  let r := updateUserData newUserInfo w in
  succeeded (issued w r.2) →
  next_fault (faults r.2) = false →
  ∃ rs : list Row,
    (getUserInfoByID (IUserInfoView.userid newUserInfo) r.2).1 = Resolved rs
    ∧ rs = set_profile newUserInfo
             <$> List.filter (has_value "userid" (VStr (IUserInfoView.userid newUserInfo)))
                   (users (tables (server w)))
    ∧ Forall
        (λ row : Row,
           row !! "userid" = Some (VStr (IUserInfoView.userid newUserInfo))
           ∧ row !! "firstname" = Some (VStr (IUserInfoView.firstname newUserInfo))
           ∧ row !! "lastname" = Some (VStr (IUserInfoView.lastname newUserInfo))
           ∧ row !! "email" = Some (VStr (IUserInfoView.email newUserInfo))
           ∧ row !! "dob" = Some (VStr (IUserInfoView.dob newUserInfo))
           ∧ row !! "password" = Some (VStr (IUserInfoView.password newUserInfo)))
        rs.
Proof.
  intros Hidle r Hs Hf.
  assert (Hcols : ∀ row : Row,
            set_profile newUserInfo row !! "userid"
            = Some (VStr (IUserInfoView.userid newUserInfo))
            ∧ set_profile newUserInfo row !! "firstname"
              = Some (VStr (IUserInfoView.firstname newUserInfo))
            ∧ set_profile newUserInfo row !! "lastname"
              = Some (VStr (IUserInfoView.lastname newUserInfo))
            ∧ set_profile newUserInfo row !! "email"
              = Some (VStr (IUserInfoView.email newUserInfo))
            ∧ set_profile newUserInfo row !! "dob"
              = Some (VStr (IUserInfoView.dob newUserInfo))
            ∧ set_profile newUserInfo row !! "password"
              = Some (VStr (IUserInfoView.password newUserInfo))).
  { intros row. unfold set_profile.
    repeat split; repeat (rewrite lookup_insert_ne by discriminate);
      apply lookup_insert_eq. }
  eexists. split; [|split; [reflexivity|]].
  - rewrite getUserInfoByID_rows
      by (apply usable_idle; [apply (write_commit_idle (UpdateUserData newUserInfo)) |];
          assumption).
    destruct (write_commit (UpdateUserData newUserInfo) w Hidle Hs)
      as (rs & n & d & Hrun & Htab & _).
    rewrite updateUserData_statement in Hrun.
    destruct (update_violation _ _ _); [discriminate|]. injection Hrun as _ _ <-.
    change (tables (server r.2)) with
      (tables (server (run_write (UpdateUserData newUserInfo) w).2)).
    rewrite Htab. simpl. f_equal.
    apply (filter_selected_update
             (has_value "userid" (VStr (IUserInfoView.userid newUserInfo)))).
    intros x _. apply has_value_true. apply Hcols.
  - apply Forall_fmap, Forall_true. intros row. apply Hcols.
Qed.

Lemma updateUserData_then_getUserInfoByID_witness :
  let newUserInfo :=
    IUserInfoView.mk "1" "Alicia" "Martin" "alicia@example.org" "1990-04-01" "s3cret" in
  let w := market [] in
  let r := updateUserData newUserInfo w in
  (status (server w) = Idle
   ∧ succeeded (issued w r.2)
   ∧ next_fault (faults r.2) = false)
  ∧ ∃ rs : list Row,
      (getUserInfoByID "1" r.2).1 = Resolved rs
      ∧ rs = set_profile newUserInfo
               <$> List.filter (has_value "userid" (VStr "1")) (users (tables (server w)))
      ∧ Forall
          (λ row : Row,
             row !! "userid" = Some (VStr "1")
             ∧ row !! "firstname" = Some (VStr "Alicia")
             ∧ row !! "lastname" = Some (VStr "Martin")
             ∧ row !! "email" = Some (VStr "alicia@example.org")
             ∧ row !! "dob" = Some (VStr "1990-04-01")
             ∧ row !! "password" = Some (VStr "s3cret"))
          rs.
Proof.
  intros newUserInfo w r.
  assert (Hidle : status (server w) = Idle) by reflexivity.
  assert (Hs : succeeded (issued w r.2)) by (repeat constructor).
  assert (Hf : next_fault (faults r.2) = false) by reflexivity.
  split; [repeat split; assumption|].
  exact (updateUserData_then_getUserInfoByID newUserInfo w Hidle Hs Hf).
Defined.

(** X19: updateUserData with a user id no user row holds leaves every table
    as it was and signals nothing: when the environment rejects no round
    trip, all four succeed. *)
Theorem updateUserData_of_missing_user (newUserInfo : IUserInfoView.t) (w : World) :
  status (server w) = Idle →
  (∀ u : Row, u ∈ users (tables (server w))
     → u !! "userid" ≠ Some (VStr (IUserInfoView.userid newUserInfo))) →
  let r := updateUserData newUserInfo w in
  tables (server r.2) = tables (server w)
  ∧ (quiet (faults w) → succeeded (issued w r.2)).
Proof.
  intros Hidle Hnone r.
  assert (Hsame : updated_users newUserInfo (tables (server w)) = tables (server w)).
  { unfold updated_users. rewrite fmap_unchanged; [apply (set_rows_same Users)|].
    intros u Hu. rewrite has_value_false by exact (Hnone u Hu). reflexivity. }
  destruct (write_effect (UpdateUserData newUserInfo) w Hidle) as (_ & _ & _ & Heff).
  rewrite updateUserData_statement, Hsame, update_violation_same in Heff.
  change (run_write (UpdateUserData newUserInfo) w) with r in Heff.
  destruct Heff as [(rs & n & d & [= <- <- <-] & Htab & _ & Hwire) | [Htab Hcause]].
  - split; [exact Htab|]. intros _. apply issued_app in Hwire.
    unfold succeeded. rewrite Hwire. repeat constructor.
  - split; [exact Htab|]. intros Hq. exfalso.
    destruct Hcause as [Hn | [e He]]; [exact (Hn Hq) | discriminate].
Qed.

Lemma updateUserData_of_missing_user_witness :
  let newUserInfo :=
    IUserInfoView.mk "42" "Nobody" "None" "nobody@example.org" "2000-01-01" "x" in
  let w := market [] in
  let r := updateUserData newUserInfo w in
  (status (server w) = Idle
   ∧ ∀ u : Row, u ∈ users (tables (server w)) → u !! "userid" ≠ Some (VStr "42"))
  ∧ tables (server r.2) = tables (server w)
  ∧ (quiet (faults w) → succeeded (issued w r.2)).
Proof.
  intros newUserInfo w r.
  assert (Hidle : status (server w) = Idle) by reflexivity.
  assert (Hnone : ∀ u : Row, u ∈ users (tables (server w))
                    → u !! "userid" ≠ Some (VStr "42")).
  { intros u Hu. apply list_elem_of_singleton in Hu as ->. vm_compute. discriminate. }
  split; [split; assumption|].
  exact (updateUserData_of_missing_user newUserInfo w Hidle Hnone).
Defined.

(** ** Sign-up, then the reads on the email *)

Lemma createUser_committed userInfo w :
  status (server w) = Idle →
  succeeded (issued w (createUser userInfo w).2) →
  users (tables (server (createUser userInfo w).2))
  = users (tables (server w))
    ++ [user_row (clock (server w)) (sequence (server w)) userInfo].
Proof.
  intros Hidle Hs.
  destruct (insert_effect (CreateUser userInfo) w "Users" Users
              ["Email"; "FirstName"; "LastName"; "DOB"; "Password"]
              [?0; ?1; ?2; ?3; ?4] Hidle eq_refl eq_refl eq_refl eq_refl) as [_ H].
  exact (H Hs).
Qed.

(** X20: after a createUser whose round trips all went well,
    checkIfUserExists for the email signed up returns true. *)
Theorem createUser_then_checkIfUserExists (userInfo : ISignUpInfo.t) (w : World) :
  status (server w) = Idle →
  let r := createUser userInfo w in
  succeeded (issued w r.2) →
  next_fault (faults r.2) = false →
  (checkIfUserExists (ISignUpInfo.email userInfo) r.2).1 = Resolved (JsColumn (VBool true)).
Proof.
  intros Hidle r Hs Hf.
  rewrite checkIfUserExists_value
    by (apply usable_idle; [apply (write_commit_idle (CreateUser userInfo)) |]; assumption).
  subst r. rewrite createUser_committed by assumption.
  rewrite existsb_app. simpl existsb at 2.
  rewrite (has_value_true "email")
    by (rewrite user_row_columns; vm_compute; reflexivity).
  rewrite orb_true_r. reflexivity.
Qed.

Lemma createUser_then_checkIfUserExists_witness :
  let w := demo [] in
  let r := createUser signup_bob w in
  (status (server w) = Idle
   ∧ succeeded (issued w r.2)
   ∧ next_fault (faults r.2) = false)
  ∧ (checkIfUserExists (ISignUpInfo.email signup_bob) r.2).1
    = Resolved (JsColumn (VBool true)).
Proof.
  intros w r.
  assert (Hidle : status (server w) = Idle) by reflexivity.
  assert (Hs : succeeded (issued w r.2)) by (repeat constructor).
  assert (Hf : next_fault (faults r.2) = false) by reflexivity.
  split; [repeat split; assumption|].
  exact (createUser_then_checkIfUserExists signup_bob w Hidle Hs Hf).
Defined.

(** X21: the password of a login is compared as the text stored at
    sign-up. When no user row held the email, after a createUser whose round
    trips all went well getUserByEmailAndPassword returns the one new row
    for the email and password signed up, and no row for the email with any
    other password. *)
Theorem login_after_signup (userInfo : ISignUpInfo.t) (w : World) :
  status (server w) = Idle →
  email_free (ISignUpInfo.email userInfo) (tables (server w)) →
  let r := createUser userInfo w in
  succeeded (issued w r.2) →
  next_fault (faults r.2) = false →
  (getUserByEmailAndPassword (ISignUpInfo.email userInfo) (ISignUpInfo.password userInfo)
     r.2).1
  = Resolved [user_row (clock (server w)) (sequence (server w)) userInfo]
  ∧ ∀ password,
      password ≠ ISignUpInfo.password userInfo →
      (getUserByEmailAndPassword (ISignUpInfo.email userInfo) password r.2).1 = Resolved [].
Proof.
  intros Hidle Hfree r Hs Hf.
  assert (Hw : usable r.2)
    by (apply usable_idle; [apply (write_commit_idle (CreateUser userInfo)) |]; assumption).
  assert (Hold : ∀ password,
            List.filter
              (λ u, has_value "email" (VStr (ISignUpInfo.email userInfo)) u
                    && has_value "password" (VStr password) u)
              (users (tables (server w))) = []).
  { intros password. apply filter_none. intros u Hu.
    rewrite has_value_false by exact (Hfree u Hu). reflexivity. }
  assert (Hemail : has_value "email" (VStr (ISignUpInfo.email userInfo))
                     (user_row (clock (server w)) (sequence (server w)) userInfo) = true)
    by (apply has_value_true; rewrite user_row_columns; vm_compute; reflexivity).
  split; [|intros password Hp];
    rewrite getUserByEmailAndPassword_rows by exact Hw;
    change (view_rows UserInfoView (tables (server r.2)))
      with (users (tables (server r.2)));
    subst r; rewrite createUser_committed by assumption;
    rewrite List.filter_app, Hold; simpl; rewrite Hemail; simpl.
  - rewrite has_value_true by (rewrite user_row_columns; vm_compute; reflexivity).
    reflexivity.
  - rewrite has_value_false; [reflexivity|].
    rewrite user_row_columns. vm_compute. intros [= E]. exact (Hp (eq_sym E)).
Qed.

Lemma login_after_signup_witness :
  let w := demo [] in
  let r := createUser signup_bob w in
  (status (server w) = Idle
   ∧ email_free (ISignUpInfo.email signup_bob) (tables (server w))
   ∧ succeeded (issued w r.2)
   ∧ next_fault (faults r.2) = false)
  ∧ (getUserByEmailAndPassword (ISignUpInfo.email signup_bob)
       (ISignUpInfo.password signup_bob) r.2).1
    = Resolved [user_row (clock (server w)) (sequence (server w)) signup_bob]
  ∧ ∀ password,
      password ≠ ISignUpInfo.password signup_bob →
      (getUserByEmailAndPassword (ISignUpInfo.email signup_bob) password r.2).1
      = Resolved [].
Proof.
  intros w r.
  assert (Hidle : status (server w) = Idle) by reflexivity.
  assert (Hfree : email_free (ISignUpInfo.email signup_bob) (tables (server w))).
  { intros u Hu. apply list_elem_of_singleton in Hu as ->. vm_compute. discriminate. }
  assert (Hs : succeeded (issued w r.2)) by (repeat constructor).
  assert (Hf : next_fault (faults r.2) = false) by reflexivity.
  split; [repeat split; assumption|].
  exact (login_after_signup signup_bob w Hidle Hfree Hs Hf).
Defined.
